(** * gomux: streams of a multiplexed session (stream.go, addr.go)

    A shallow embedding of the per-stream code of gomux: the stream-ID
    header, the read pipeline over pool buffers, the fragmenting write
    path, Close/Reset, the deadline setters and the address delegation.

    Go values are modelled as follows.
    - [uint64] is a [Z] in [0, 2^64) and every operation that can leave
      the range is wrapped with [u64].
    - A non-nil [[]byte] is a [buf]: the identity of its backing array,
      the offset of its first element in that array and its elements.
      A Go slice that may be nil is an [option buf].
    - Channels that are only ever closed ([reset], the done channel of
      [closedLocal]) are booleans; the buffered channel [dataIn] is a
      queue together with a closed flag.
    - Methods that mutate the stream, the session it points to or the
      buffer pool are computations in the monad [M] over [State].
    - Every method is run on its own, from entry to return, so the mutexes
      [clLock] and [chLock] (always released before the method returns) are
      not represented; a blocking select takes the case the caller of the
      model names, and is [Blocked] when that case is not ready. Logging is
      left out. *)

From Stdlib Require Import ZArith Strings.Byte String List Lia.
From stdpp Require Import base gmap list strings countable.

Local Open Scope Z_scope.

(** ** Unsigned 64-bit arithmetic *)

Definition u64 (z : Z) : Z := z mod 2 ^ 64.

Definition is_u64 (z : Z) : Prop := 0 <= z < 2 ^ 64.

(** ** Stream identifiers *)

(** [type streamID struct { id uint64; initiator bool }] *)
Record streamID := mkStreamID { id : Z; initiator : bool }.

#[global] Instance streamID_eq_dec : EqDecision streamID.
Proof. solve_decision. Defined.

#[global] Instance streamID_countable : Countable streamID.
Proof.
  refine (inj_countable' (fun s => (id s, initiator s))
                         (fun p => mkStreamID p.1 p.2) _).
  by intros [].
Defined.

(** [func (id *streamID) header(tag uint64) uint64] *)
Definition header (sid : streamID) (tag : Z) : Z :=
  let header := Z.lor (u64 (Z.shiftl (id sid) 3)) tag in
  if negb (initiator sid) then u64 (header - 1) else header.

(** Modelled from the spec: the tag constants of the missing multiplex.go,
    taken from the tag table of the data model (the even tag of each pair is
    the initiator-to-receiver one; [header] turns it into the odd one for a
    non-initiator). *)
Definition newStreamTag : Z := 0.
Definition messageTag : Z := 2.
Definition closeTag : Z := 4.
Definition resetTag : Z := 6.

(** ** Errors *)

(** Go's [error] values that this code creates, compares or passes on; a
    nil [error] is [None]. *)
Inductive error :=
| ErrReset                      (* var ErrReset = errors.New("stream reset") *)
| EOF                           (* io.EOF *)
| errTimeout
| errStreamClosed
| ContextCanceled               (* context.Canceled *)
| ErrShutdown
| errorsNew (msg : string)      (* errors.New(msg) *)
| ErrTransport (code : nat).    (* any other error of the transport *)

#[global] Instance error_eq_dec : EqDecision error.
Proof. solve_decision. Defined.

Definition errClosedWrite : error := errorsNew "cannot write to closed stream".

(** ** Byte slices and the buffer pool *)

#[global] Instance byte_eq_decision : EqDecision byte := byte_eq_dec.

(** A non-nil [[]byte]. *)
Record buf := mkBuf { arr : nat; off : nat; elems : list byte }.

#[global] Instance buf_eq_dec : EqDecision buf.
Proof. solve_decision. Defined.

(** [x[k:]] *)
Definition reslice (x : buf) (k : nat) : buf :=
  mkBuf (arr x) (off x + k) (drop k (elems x)).

(** [x] is [e[k:]] for some [k <= len(e)]. *)
Definition subslice (x e : buf) : Prop :=
  arr x = arr e /\
  exists k : nat, (k <= length (elems e))%nat /\
                  off x = (off e + k)%nat /\ elems x = drop k (elems e).

(** [copy(b[n:], src)]: the number of bytes copied and the new contents
    of [b]. *)
Definition copy_into (b : list byte) (n : nat) (src : list byte) : nat * list byte :=
  let read := Nat.min (length b - n) (length src) in
  (read, take n b ++ take read src ++ drop (n + read) b).

(** ** Deadlines *)

(** Modelled from the spec: the deadline primitive [pipeDeadline] (its Go
    declaration is not part of the sources): it holds a target instant, the
    zero instant meaning disabled; [set] reprograms the target; the wait
    handle is ready at or after the target. *)
Record pipeDeadline := mkDeadline { target : Z }.

Definition timeZero : Z := 0.       (* time.Time{} *)

Definition deadline_set (t : Z) (d : pipeDeadline) : pipeDeadline := mkDeadline t.

Definition deadline_ready (d : pipeDeadline) (now : Z) : bool :=
  negb (target d =? timeZero) && (target d <=? now).

(** The cancel signal handed to the send path. *)
Inductive doneCh :=
| DoneDeadline (d : pipeDeadline)   (* s.wDeadline.wait() *)
| DoneTimeout (dur : Z).            (* context.WithTimeout(..., dur).Done() *)

(** ** Addresses (addr.go) *)

(** A [net.Addr] interface value, as the results of its two methods. *)
Record netAddr := mkNetAddr { addr_Network : string; addr_String : string }.

(** [type gomuxAddr struct { Addr string }] *)
Record gomuxAddr := mkGomuxAddr { Addr : string }.

Definition gomuxAddr_Network (y : gomuxAddr) : string := "gomux".

(** [fmt.Sprintf("gomux:%s", y.Addr)] *)
Definition gomuxAddr_String (y : gomuxAddr) : string := "gomux:" +:+ Addr y.

(** [*gomuxAddr] as a [net.Addr]. *)
Definition gomuxAddr_netAddr (y : gomuxAddr) : netAddr :=
  mkNetAddr (gomuxAddr_Network y) (gomuxAddr_String y).

(** The transport [s.con]: it either implements [hasAddr] or not. *)
Inductive Conn :=
| ConnPlain
| ConnHasAddr (local remote : netAddr).

(** ** The session, as far as a stream touches it *)

Record sendCall := mkSendCall {
  call_done : doneCh;
  call_header : Z;
  call_data : list byte;
  call_result : option error
}.

(** [channels] is the key set and the names of the registered streams of
    [mp.channels]; [sendLog] lists the calls of [sendMsg], oldest first;
    [resetLog] the [sendResetMsg] tasks started with [go]; [sendScript]
    is the environment: what the next calls of [sendMsg] will answer. *)
Record Multiplex := mkMultiplex {
  con : Conn;
  channels : gmap streamID string;
  shutdown : bool;
  sendLog : list sendCall;
  resetLog : list (Z * bool);
  sendScript : list (option error)
}.

(** ** Streams *)

Record Stream := mkStream {
  sid : streamID;                  (* id *)
  name : string;
  dataIn : list (option buf);      (* chan []byte: queued values *)
  dataInClosed : bool;             (* chan []byte: closed *)
  extra : option buf;
  exbuf : option buf;
  rDeadline : pipeDeadline;
  wDeadline : pipeDeadline;
  closedRemote : bool;
  reset : bool;                    (* chan struct{}: closed *)
  closedLocal : bool               (* closedLocal.Err() != nil *)
}.

Definition with_dataIn (q : list (option buf)) (s : Stream) : Stream :=
  mkStream (sid s) (name s) q (dataInClosed s) (extra s) (exbuf s)
           (rDeadline s) (wDeadline s) (closedRemote s) (reset s) (closedLocal s).
Definition with_extra (x : option buf) (s : Stream) : Stream :=
  mkStream (sid s) (name s) (dataIn s) (dataInClosed s) x (exbuf s)
           (rDeadline s) (wDeadline s) (closedRemote s) (reset s) (closedLocal s).
Definition with_exbuf (x : option buf) (s : Stream) : Stream :=
  mkStream (sid s) (name s) (dataIn s) (dataInClosed s) (extra s) x
           (rDeadline s) (wDeadline s) (closedRemote s) (reset s) (closedLocal s).
Definition with_rDeadline (d : pipeDeadline) (s : Stream) : Stream :=
  mkStream (sid s) (name s) (dataIn s) (dataInClosed s) (extra s) (exbuf s)
           d (wDeadline s) (closedRemote s) (reset s) (closedLocal s).
Definition with_wDeadline (d : pipeDeadline) (s : Stream) : Stream :=
  mkStream (sid s) (name s) (dataIn s) (dataInClosed s) (extra s) (exbuf s)
           (rDeadline s) d (closedRemote s) (reset s) (closedLocal s).
Definition with_closedRemote (v : bool) (s : Stream) : Stream :=
  mkStream (sid s) (name s) (dataIn s) (dataInClosed s) (extra s) (exbuf s)
           (rDeadline s) (wDeadline s) v (reset s) (closedLocal s).
Definition with_reset (v : bool) (s : Stream) : Stream :=
  mkStream (sid s) (name s) (dataIn s) (dataInClosed s) (extra s) (exbuf s)
           (rDeadline s) (wDeadline s) (closedRemote s) v (closedLocal s).
Definition with_closedLocal (v : bool) (s : Stream) : Stream :=
  mkStream (sid s) (name s) (dataIn s) (dataInClosed s) (extra s) (exbuf s)
           (rDeadline s) (wDeadline s) (closedRemote s) (reset s) v.

(** ** The state monad *)

(** [pool] lists the backing arrays handed to [pool.Put], oldest first. *)
Record State := mkState { stream : Stream; mp : Multiplex; pool : list nat }.

(** A call returns ([Done]), waits on a select none of whose chosen case
    is ready ([Blocked]), panics, or exhausts the fuel of a loop. *)
Inductive res (A : Type) :=
| Done (a : A)
| Blocked
| Panic
| OutOfFuel.
Arguments Done {A} a.
Arguments Blocked {A}.
Arguments Panic {A}.
Arguments OutOfFuel {A}.

Definition M (A : Type) : Type := State -> res (A * State).

Definition ret {A} (a : A) : M A := fun st => Done (a, st).

Definition bind {A B} (c : M A) (k : A -> M B) : M B :=
  fun st =>
    match c st with
    | Done (a, st') => k a st'
    | Blocked => Blocked
    | Panic => Panic
    | OutOfFuel => OutOfFuel
    end.

#[global] Instance M_ret : MRet M := @ret.
#[global] Instance M_bind : MBind M := fun A B k c => bind c k.

Definition blocked {A} : M A := fun _ => Blocked.
Definition panic {A} : M A := fun _ => Panic.
Definition outOfFuel {A} : M A := fun _ => OutOfFuel.

Definition getStream : M Stream := fun st => Done (stream st, st).
Definition modStream (f : Stream -> Stream) : M unit :=
  fun st => Done (tt, mkState (f (stream st)) (mp st) (pool st)).
Definition getMp : M Multiplex := fun st => Done (mp st, st).
Definition modMp (f : Multiplex -> Multiplex) : M unit :=
  fun st => Done (tt, mkState (stream st) (f (mp st)) (pool st)).

(** [pool.Put(x)] *)
Definition poolPut (x : buf) : M unit :=
  fun st => Done (tt, mkState (stream st) (mp st) (pool st ++ [arr x])).

(** ** The session functions a stream calls *)

(** Modelled from the spec: [sendMsg] of the missing multiplex.go, the
    write serializer: a client submits (header, payload, cancel signal) and
    blocks until the frame is written (nil) or the submission fails (cancel
    signal, session shutdown, transport error). Which of the two happens is
    the environment's choice, read from [sendScript]; an exhausted script
    accepts the frame. Every call is recorded in [sendLog]. *)
Definition sendMsg (done : doneCh) (hdr : Z) (data : list byte) : M (option error) :=
  m ← getMp;
  let r := match sendScript m with [] => None | r :: _ => r end in
  modMp (fun m => mkMultiplex (con m) (channels m) (shutdown m)
                    (sendLog m ++ [mkSendCall done hdr data r]) (resetLog m)
                    (tail (sendScript m))) ;;
  ret r.

(** [go s.mp.sendResetMsg(hdr, force)]: the task is started, the caller
    does not wait for it. *)
Definition go_sendResetMsg (hdr : Z) (force : bool) : M unit :=
  modMp (fun m => mkMultiplex (con m) (channels m) (shutdown m)
                    (sendLog m) (resetLog m ++ [(hdr, force)]) (sendScript m)).

(** [s.mp.chLock.Lock(); delete(s.mp.channels, k); s.mp.chLock.Unlock()] *)
Definition deleteChannel (k : streamID) : M unit :=
  modMp (fun m => mkMultiplex (con m) (delete k (channels m)) (shutdown m)
                    (sendLog m) (resetLog m) (sendScript m)).

(** Modelled from the spec: [isShutdown] of the missing multiplex.go, the
    state of the session's shutdown signal. *)
Definition isShutdown (m : Multiplex) : bool := shutdown m.

(** Modelled from the spec: [Multiplex.Close] of the missing multiplex.go:
    fire the shutdown signal, drain the channel table and fire the reset
    signal of every stream in it (here: of this stream when it is still
    registered), leaving its buffers to the reader. *)
Definition mpClose : M unit :=
  s ← getStream;
  m ← getMp;
  (if decide (is_Some (channels m !! sid s))
   then modStream (fun s => with_closedLocal true (with_reset true (with_closedRemote true s)))
   else ret tt) ;;
  modMp (fun m => mkMultiplex (con m) ∅ true (sendLog m) (resetLog m) (sendScript m)).

(** ** stream.go *)

(** [func (s *Stream) Name() string] *)
Definition Name (s : Stream) : string := name s.

(** A receive on [s.dataIn] inside a select: a value, the closed channel
    ([ok] false), or not ready. *)
Inductive recvResult :=
| RecvVal (read : option buf)
| RecvClosed
| RecvNotReady.

Definition recvDataIn : M recvResult :=
  s ← getStream;
  match dataIn s with
  | read :: q => modStream (with_dataIn q) ;; ret (RecvVal read)
  | [] => ret (if dataInClosed s then RecvClosed else RecvNotReady)
  end.

(** [func (s *Stream) preloadData()] *)
Definition preloadData : M unit :=
  r ← recvDataIn;
  match r with
  | RecvVal read =>
      modStream (with_extra read) ;;
      modStream (with_exbuf read)
  | RecvClosed => ret tt
  | RecvNotReady => ret tt          (* default: *)
  end.

(** The [for { select { ... } }] of [returnBuffers]. *)
Fixpoint returnBuffers_loop (fuel : nat) : M unit :=
  match fuel with
  | O => outOfFuel
  | S fuel =>
      r ← recvDataIn;
      match r with
      | RecvClosed => ret tt
      | RecvVal None => returnBuffers_loop fuel         (* continue *)
      | RecvVal (Some read) => poolPut read ;; returnBuffers_loop fuel
      | RecvNotReady => ret tt      (* default: *)
      end
  end.

(** [func (s *Stream) returnBuffers()] *)
Definition returnBuffers : M unit :=
  s ← getStream;
  (match exbuf s with
   | Some e =>
       poolPut e ;;
       modStream (with_exbuf None) ;;
       modStream (with_extra None)
   | None => ret tt
   end) ;;
  s ← getStream;
  returnBuffers_loop (S (length (dataIn s))).

(** The case of the blocking select of [waitForData] that is taken; the
    deadline case carries the instant at which the select wakes up. *)
Inductive selectCase :=
| SelReset
| SelData
| SelDeadline (now : Z).

(** [func (s *Stream) waitForData() error] *)
Definition waitForData (c : selectCase) : M (option error) :=
  match c with
  | SelReset =>
      s ← getStream;
      if reset s then
        returnBuffers ;;
        ret (Some ErrReset)
      else blocked
  | SelData =>
      r ← recvDataIn;
      match r with
      | RecvClosed => ret (Some EOF)
      | RecvVal read =>
          modStream (with_extra read) ;;
          modStream (with_exbuf read) ;;
          ret None
      | RecvNotReady => blocked
      end
  | SelDeadline now =>
      s ← getStream;
      if deadline_ready (rDeadline s) now then ret (Some errTimeout) else blocked
  end.

(** The [for s.extra != nil && n < len(b) { ... }] of [Read]; it returns
    the contents of [b] and [n]. *)
Fixpoint Read_loop (fuel : nat) (b : list byte) (n : nat) : M (list byte * nat) :=
  match fuel with
  | O => outOfFuel
  | S fuel =>
      s ← getStream;
      match extra s with
      | Some x =>
          if (n <? length b)%nat then
            let '(read, b) := copy_into b n (elems x) in
            let n := (n + read)%nat in
            (if (read <? length (elems x))%nat then
               modStream (with_extra (Some (reslice x read)))
             else
               (match exbuf s with
                | Some e => poolPut e
                | None => ret tt
                end) ;;
               modStream (with_extra None) ;;
               modStream (with_exbuf None) ;;
               preloadData) ;;
            Read_loop fuel b n
          else ret (b, n)
      | None => ret (b, n)
      end
  end.

(** [func (s *Stream) Read(b []byte) (int, error)]; the result carries the
    contents of [b] after the call. The call runs from a single state: a
    reset signal that fires while the call waits is not part of it, and is
    met as the reset case of [waitForData] run on the state after
    [Reset]. *)
Definition Read (c : selectCase) (b : list byte) : M (list byte * nat * option error) :=
  s ← getStream;
  if reset s then ret (b, 0%nat, Some ErrReset) else
  err ← (match extra s with
          | None => waitForData c
          | Some _ => ret None
          end);
  match err with
  | Some e => ret (b, 0%nat, Some e)
  | None =>
      s ← getStream;
      '(b, n) ← Read_loop (length (dataIn s) + 3) b 0;
      ret (b, n, None)
  end.

(** [func (s *Stream) isClosed() bool] *)
Definition isClosed (s : Stream) : bool := closedLocal s.

(** [s.doCloseLocal()] *)
Definition doCloseLocal : M unit := modStream (with_closedLocal true).

(** [func (s *Stream) write(b []byte) (int, error)] *)
Definition write (b : list byte) : M (nat * option error) :=
  s ← getStream;
  if isClosed s then ret (0%nat, Some errClosedWrite) else
  err ← sendMsg (DoneDeadline (wDeadline s)) (header (sid s) messageTag) b;
  match err with
  | Some e =>
      let e := if decide (e = ContextCanceled) then errClosedWrite else e in
      ret (0%nat, Some e)
  | None => ret (length b, None)
  end.

(** [func (s *Stream) cancelDeadlines()] *)
Definition cancelDeadlines : M unit :=
  modStream (fun s => with_rDeadline (deadline_set timeZero (rDeadline s)) s) ;;
  modStream (fun s => with_wDeadline (deadline_set timeZero (wDeadline s)) s).

(** [func (s *Stream) Reset() error] *)
Definition Reset : M (option error) :=
  s ← getStream;
  if closedRemote s && isClosed s then ret None else
  if reset s then ret None else
  modStream (with_reset true) ;;           (* close(s.reset) *)
  doCloseLocal ;;
  modStream (with_closedRemote true) ;;
  cancelDeadlines ;;
  go_sendResetMsg (header (sid s) resetTag) true ;;
  deleteChannel (sid s) ;;
  ret None.

(** [func (s *Stream) SetDeadline(t time.Time) error] *)
Definition SetDeadline (t : Z) : M (option error) :=
  s ← getStream;
  if closedRemote s && isClosed s then ret (Some errStreamClosed) else
  (if negb (closedRemote s)
   then modStream (fun s => with_rDeadline (deadline_set t (rDeadline s)) s)
   else ret tt) ;;
  s ← getStream;
  (if negb (isClosed s)
   then modStream (fun s => with_wDeadline (deadline_set t (wDeadline s)) s)
   else ret tt) ;;
  ret None.

(** [func (s *Stream) SetReadDeadline(t time.Time) error] *)
Definition SetReadDeadline (t : Z) : M (option error) :=
  s ← getStream;
  if closedRemote s then ret (Some errStreamClosed) else
  modStream (fun s => with_rDeadline (deadline_set t (rDeadline s)) s) ;;
  ret None.

(** [func (s *Stream) SetWriteDeadline(t time.Time) error] *)
Definition SetWriteDeadline (t : Z) : M (option error) :=
  s ← getStream;
  if isClosed s then ret (Some errStreamClosed) else
  modStream (fun s => with_wDeadline (deadline_set t (wDeadline s)) s) ;;
  ret None.

Section Tunables.

(** The package variables [MaxMessageSize] and [ResetStreamTimeout] of the
    missing multiplex.go. *)
Variable MaxMessageSize : Z.
Variable ResetStreamTimeout : Z.

(** The [for written < len(b) { ... }] of [Write]. *)
Fixpoint Write_loop (fuel : nat) (b : list byte) (written : nat) : M (nat * option error) :=
  match fuel with
  | O => outOfFuel
  | S fuel =>
      if (written <? length b)%nat then
        let wl := Z.of_nat (length b) - Z.of_nat written in
        let wl := if wl >? MaxMessageSize then MaxMessageSize else wl in
        if wl <? 0 then panic        (* b[written:written+wl] out of range *)
        else
          '(n, err) ← write (take (Z.to_nat wl) (drop written b));
          match err with
          | Some e => ret (written, Some e)
          | None => Write_loop fuel b (written + n)
          end
      else ret (written, None)
  end.

(** [func (s *Stream) Write(b []byte) (int, error)] *)
Definition Write (b : list byte) : M (nat * option error) :=
  Write_loop (S (length b)) b 0.

(** [func (s *Stream) Close() error] *)
Definition Close : M (option error) :=
  s ← getStream;
  err ← sendMsg (DoneTimeout ResetStreamTimeout) (header (sid s) closeTag) [];
  s ← getStream;
  if isClosed s then ret None else
  let remote := closedRemote s in
  doCloseLocal ;;
  (if remote then
     cancelDeadlines ;;
     deleteChannel (sid s)
   else ret tt) ;;
  m ← getMp;
  (if bool_decide (err <> None) && negb (isShutdown m) then mpClose else ret tt) ;;
  ret err.

End Tunables.

(** ** addr.go *)

(** [func (s *Multiplex) LocalAddr() net.Addr] *)
Definition Multiplex_LocalAddr (s : Multiplex) : netAddr :=
  match con s with
  | ConnPlain => gomuxAddr_netAddr (mkGomuxAddr "local")
  | ConnHasAddr local _ => local
  end.

(** [func (s *Multiplex) RemoteAddr() net.Addr] *)
Definition Multiplex_RemoteAddr (s : Multiplex) : netAddr :=
  match con s with
  | ConnPlain => gomuxAddr_netAddr (mkGomuxAddr "remote")
  | ConnHasAddr _ remote => remote
  end.

(** [func (s *Multiplex) Addr() net.Addr] *)
Definition Multiplex_Addr (s : Multiplex) : netAddr := Multiplex_LocalAddr s.

(** [func (s *Stream) LocalAddr() net.Addr]: through the pointer [s.mp]. *)
Definition Stream_LocalAddr (st : State) : netAddr := Multiplex_LocalAddr (mp st).

(** [func (s *Stream) RemoteAddr() net.Addr] *)
Definition Stream_RemoteAddr (st : State) : netAddr := Multiplex_RemoteAddr (mp st).

(** ** Fragmentation, in the words of the specification *)

(** [b] cut into consecutive pieces of [m] bytes, the last one possibly
    shorter. *)
Fixpoint chunks (fuel m : nat) (b : list byte) : list (list byte) :=
  match fuel with
  | O => []
  | S fuel =>
      match b with
      | [] => []
      | _ => take m b :: chunks fuel m (drop m b)
      end
  end.

Definition fragments (m : Z) (b : list byte) : list (list byte) :=
  chunks (length b) (Z.to_nat m) b.

(** Submit the pieces in order through [write]; stop at the first error
    and report the bytes written before it. *)
Fixpoint submit_all (cs : list (list byte)) (written : nat) : M (nat * option error) :=
  match cs with
  | [] => ret (written, None)
  | c :: cs =>
      '(n, err) ← write c;
      match err with
      | Some e => ret (written, Some e)
      | None => submit_all cs (written + n)
      end
  end.

(** What the next call of [sendMsg] answers. *)
Definition next_answer (st : State) : option error :=
  match sendScript (mp st) with [] => None | r :: _ => r end.

(** The error [write] reports for the error [e] of the send path. *)
Definition write_error (e : error) : error :=
  if decide (e = ContextCanceled) then errClosedWrite else e.

(** The state after [sendMsg] has been called for [calls]. *)
Definition after_sends (calls : list sendCall) (st : State) : State :=
  mkState (stream st)
          (mkMultiplex (con (mp st)) (channels (mp st)) (shutdown (mp st))
                       (sendLog (mp st) ++ calls) (resetLog (mp st))
                       (drop (length calls) (sendScript (mp st))))
          (pool st).

(** The call [write] makes for the piece [c], with its answer. *)
Definition message_call (s : Stream) (r : option error) (c : list byte) : sendCall :=
  mkSendCall (DoneDeadline (wDeadline s)) (header (sid s) messageTag) c r.

(** ** Buffer ownership *)

(** The backing arrays of the non-nil buffers of a queue. *)
Definition queued (q : list (option buf)) : list nat := omap (fmap arr) q.

(** The pool buffers a stream holds: the one behind [exbuf] and the queued
    ones. *)
Definition held (s : Stream) : list nat :=
  match exbuf s with Some e => [arr e] | None => [] end ++ queued (dataIn s).

(** [exbuf] is nil exactly when [extra] is, and [extra] is a slice of
    [exbuf]. *)
Definition slices_ok (s : Stream) : Prop :=
  (exbuf s = None <-> extra s = None) /\
  (forall x e, extra s = Some x -> exbuf s = Some e -> subslice x e).

(** No buffer is held twice, and no held buffer has been handed to the
    pool. *)
Definition Inv (st : State) : Prop :=
  slices_ok (stream st) /\ NoDup (held (stream st) ++ pool st).

(** The part of the state the buffer discipline is about. *)
Definition bufs (st : State) : option buf * option buf * list (option buf) * list nat :=
  (extra (stream st), exbuf (stream st), dataIn (stream st), pool st).

(** The stream once [returnBuffers] has run. *)
Definition drained (s : Stream) : Stream :=
  with_dataIn []
    (match exbuf s with
     | Some _ => with_extra None (with_exbuf None s)
     | None => s
     end).



(** The if/else that ends the body of the loop of [Read], for the buffer
    [x] in [extra] of which [read] bytes were copied. *)
Definition Read_advance (x : buf) (read : nat) : M unit :=
  s ← getStream;
  if (read <? length (elems x))%nat then
    modStream (with_extra (Some (reslice x read)))
  else
    (match exbuf s with
     | Some e => poolPut e
     | None => ret tt
     end) ;;
    modStream (with_extra None) ;;
    modStream (with_exbuf None) ;;
    preloadData.

(** The fuel the loop of [Read] needs. *)
Definition Read_need (b : list byte) (n : nat) (s : Stream) : nat :=
  match extra s with
  | Some _ => if (n <? length b)%nat then length (dataIn s) + 2 else 1
  | None => 1
  end.

(** The operations of a stream. *)
Inductive Op :=
| OpRead (c : selectCase) (b : list byte)
| OpWrite (b : list byte)
| OpClose
| OpReset
| OpSetDeadline (t : Z)
| OpSetReadDeadline (t : Z)
| OpSetWriteDeadline (t : Z)
| OpPreloadData
| OpWaitForData (c : selectCase)
| OpReturnBuffers.

Definition exec (MaxMessageSize ResetStreamTimeout : Z) (o : Op) : M unit :=
  match o with
  | OpRead c b => _ ← Read c b; ret tt
  | OpWrite b => _ ← Write MaxMessageSize b; ret tt
  | OpClose => _ ← Close ResetStreamTimeout; ret tt
  | OpReset => _ ← Reset; ret tt
  | OpSetDeadline t => _ ← SetDeadline t; ret tt
  | OpSetReadDeadline t => _ ← SetReadDeadline t; ret tt
  | OpSetWriteDeadline t => _ ← SetWriteDeadline t; ret tt
  | OpPreloadData => preloadData
  | OpWaitForData c => _ ← waitForData c; ret tt
  | OpReturnBuffers => returnBuffers
  end.

Fixpoint execs (MaxMessageSize ResetStreamTimeout : Z) (os : list Op) : M unit :=
  match os with
  | [] => ret tt
  | o :: os =>
      exec MaxMessageSize ResetStreamTimeout o ;;
      execs MaxMessageSize ResetStreamTimeout os
  end.

(** ** Sample states *)

Definition exID : streamID := mkStreamID 1 true.

(** An open stream with nothing buffered. *)
Definition exStream : Stream :=
  mkStream exID "echo" [] false None None (mkDeadline 0) (mkDeadline 0)
           false false false.

Definition exMux : Multiplex :=
  mkMultiplex ConnPlain {[ exID := "echo"%string ]} false [] [] [].

Definition exState : State := mkState exStream exMux [].

(** A session over a transport with addresses. *)
Definition exTcpMux : Multiplex :=
  mkMultiplex (ConnHasAddr (mkNetAddr "tcp" "10.0.0.1:4001") (mkNetAddr "tcp" "10.0.0.2:4001"))
              ∅ false [] [] [].

(** A stream that holds a partly read buffer and two queued ones. *)
Definition exBuffered : Stream :=
  with_exbuf (Some (mkBuf 7 0 [x01; x02; x03]))
    (with_extra (Some (mkBuf 7 1 [x02; x03]))
       (with_dataIn [Some (mkBuf 8 0 [x04]); Some (mkBuf 9 0 [x05; x06])] exStream)).

Definition exBufferedState : State := mkState exBuffered exMux [].

(** A stream whose remote side is closed and whose local side is open. *)
Definition exHalfClosedState : State :=
  mkState (with_closedRemote true exStream) exMux [].

(** ** Notions for the further properties *)

(** Everything in the state but the two deadlines. *)
Definition besides_deadlines (st : State) :
    streamID * string * list (option buf) * bool * option buf * option buf *
    bool * bool * bool * Multiplex * list nat :=
  (sid (stream st), name (stream st), dataIn (stream st), dataInClosed (stream st),
   extra (stream st), exbuf (stream st),
   closedRemote (stream st), reset (stream st), closedLocal (stream st),
   mp st, pool st).


(** The bytes of a slice that may be nil. *)
Definition slice_bytes (x : option buf) : list byte :=
  match x with Some y => elems y | None => [] end.

(** The bytes a reader of the stream has not been given yet, in order:
    the rest of [extra], then the queued slices. *)
Definition pending (s : Stream) : list byte :=
  slice_bytes (extra s) ++ concat (map slice_bytes (dataIn s)).

(** The payload bytes of the calls of [sendMsg] that were accepted, in
    order. *)
Definition accepted_bytes (calls : list sendCall) : list byte :=
  concat (map (fun c => match call_result c with
                        | None => call_data c
                        | Some _ => []
                        end) calls).

(** The fields of a stream that reading leaves alone. *)
Definition flags (s : Stream) :
    streamID * string * bool * pipeDeadline * pipeDeadline * bool * bool * bool :=
  (sid s, name s, dataInClosed s, rDeadline s, wDeadline s,
   closedRemote s, reset s, closedLocal s).

(** A change of the final state of a call. *)
Definition res_map {A} (f : State -> State) (r : res (A * State)) : res (A * State) :=
  match r with
  | Done (a, st) => Done (a, f st)
  | Blocked => Blocked
  | Panic => Panic
  | OutOfFuel => OutOfFuel
  end.

(** A change of the stream and of the session that leaves the pool. *)
Definition lift_state (g : Stream -> Stream) (f : Multiplex -> Multiplex)
    (st : State) : State :=
  mkState (g (stream st)) (f (mp st)) (pool st).

(** The calls of [write] for one stream: Message header, write deadline. *)
Definition message_calls (s : Stream) (calls : list sendCall) : Prop :=
  Forall (fun c => call_header c = header (sid s) messageTag /\
                   call_done c = DoneDeadline (wDeadline s)) calls.

(** What an accepted [Close] does to the state of a stream that is open on
    both sides: one more call in the log, one answer consumed, the local
    side closed. *)
Definition closed_locally (R : Z) (st : State) : State :=
  mkState (with_closedLocal true (stream st))
          (mp (after_sends [mkSendCall (DoneTimeout R) (header (sid (stream st)) closeTag) []
                              (next_answer st)] st))
          (pool st).

(** ** Facts about [header] *)

Lemma u64_small z : is_u64 z -> u64 z = z.
Proof. intros H. apply Z.mod_small. exact H. Qed.

Lemma u64_range z : is_u64 (u64 z).
Proof. apply Z.mod_pos_bound. lia. Qed.

Lemma lor_shift3 n tag :
  0 <= n -> 0 <= tag < 8 -> Z.lor (Z.shiftl n 3) tag = 8 * n + tag.
Proof.
  intros Hn Ht.
  assert (Hland : Z.land (Z.shiftl n 3) tag = 0).
  { apply Z.bits_inj'. intros i Hi.
    rewrite Z.land_spec, Z.bits_0.
    destruct (Z_lt_dec i 3) as [Hlt|Hge].
    - rewrite Z.shiftl_spec_low by lia. reflexivity.
    - assert (Z.testbit tag i = false) as ->.
      { destruct (Z.eq_dec tag 0) as [->|Hne]; [apply Z.bits_0|].
        apply Z.bits_above_log2; [lia|].
        assert (Z.log2 tag < 3); [|lia].
        apply Z.log2_lt_pow2; lia. }
      apply andb_false_r. }
  rewrite <- (Z.add_nocarry_lor _ _ Hland).
  rewrite Z.shiftl_mul_pow2 by lia. lia.
Qed.

(** C1. The header is [id<<3 | tag] for the initiator and that value minus
    one (in uint64 arithmetic) otherwise; for a 61-bit number and a 3-bit
    tag the low 3 bits of [id<<3 | tag] are the tag and the upper 61 bits
    are the number. *)
Theorem header_layout (n tag : Z) (ini : bool) :
  is_u64 n -> is_u64 tag ->
  let v := Z.lor (u64 (Z.shiftl n 3)) tag in
  header (mkStreamID n ini) tag = (if ini then v else u64 (v - 1)) /\
  is_u64 (header (mkStreamID n ini) tag) /\
  (n < 2 ^ 61 -> tag < 8 ->
     v = 8 * n + tag /\ Z.land v 7 = tag /\ Z.shiftr v 3 = n /\
     (ini = false -> (n, tag) <> (0, 0) ->
        header (mkStreamID n ini) tag = 8 * n + tag - 1)).
Proof.
  intros Hn Ht v.
  assert (Hv : is_u64 v).
  { unfold v, is_u64. pose proof (u64_range (Z.shiftl n 3)) as Hs.
    unfold is_u64 in *. split.
    - apply Z.lor_nonneg. lia.
    - destruct (Z.eq_dec (Z.lor (u64 (Z.shiftl n 3)) tag) 0) as [->|Hne]; [lia|].
      apply Z.log2_lt_pow2; [pose proof (proj2 (Z.lor_nonneg (u64 (Z.shiftl n 3)) tag)); lia|].
      rewrite Z.log2_lor by lia.
      apply Z.max_lub_lt.
      + destruct (Z.eq_dec (u64 (Z.shiftl n 3)) 0) as [->|H0]; [simpl; lia|].
        apply Z.log2_lt_pow2; lia.
      + destruct (Z.eq_dec tag 0) as [->|H0]; [simpl; lia|].
        apply Z.log2_lt_pow2; lia. }
  split; [|split].
  - unfold header; simpl. destruct ini; reflexivity.
  - unfold header; simpl. destruct ini; simpl; [exact Hv|apply u64_range].
  - intros Hn61 Ht8.
    assert (Hsh : u64 (Z.shiftl n 3) = Z.shiftl n 3).
    { apply u64_small. unfold is_u64 in *. rewrite Z.shiftl_mul_pow2 by lia. lia. }
    assert (Hveq : v = 8 * n + tag).
    { unfold v. rewrite Hsh. apply lor_shift3; unfold is_u64 in *; lia. }
    split; [exact Hveq|]. unfold is_u64 in *.
    split; [|split].
    + rewrite Hveq. change 7 with (Z.ones 3). rewrite Z.land_ones by lia.
      change (2 ^ 3) with 8.
      rewrite Z.add_comm, Z.mul_comm, Z.mod_add by lia. apply Z.mod_small; lia.
    + rewrite Hveq. rewrite Z.shiftr_div_pow2 by lia. change (2 ^ 3) with 8.
      rewrite Z.add_comm, Z.mul_comm, Z.div_add by lia.
      rewrite Z.div_small by lia. lia.
    + intros -> Hne. unfold header; simpl. fold v. rewrite Hveq.
      apply u64_small. unfold is_u64.
      assert (8 * n + tag <> 0); [|lia].
      intros Heq. apply Hne. f_equal; lia.
Qed.

Lemma header_layout_witness :
  header (mkStreamID 5 false) messageTag = 41 /\
  Z.land (Z.lor (u64 (Z.shiftl 5 3)) messageTag) 7 = messageTag.
Proof.
  assert (H5 : is_u64 5) by (unfold is_u64; lia).
  assert (H2 : is_u64 messageTag) by (unfold is_u64, messageTag; lia).
  destruct (header_layout 5 messageTag false H5 H2) as (_ & _ & H).
  destruct H as (_ & Hl & _ & Hh); [lia | unfold messageTag; lia |].
  split; [|exact Hl].
  rewrite Hh; [reflexivity | reflexivity | discriminate].
Defined.

(** ** Running the monad *)

Ltac munfold :=
  unfold mbind, M_bind, bind, mret, M_ret, ret, blocked, panic, outOfFuel,
    getStream, modStream, getMp, modMp, poolPut in *.

Ltac mrun := munfold; simpl in *.

(** ** Addresses *)

(** C10. Without transport addresses the session answers ("gomux",
    "gomux:local") and ("gomux", "gomux:remote"); with them it hands out
    the transport's; a stream answers what its session answers. *)
Theorem addr_delegation (st : State) :
  (con (mp st) = ConnPlain ->
     addr_Network (Multiplex_LocalAddr (mp st)) = "gomux"%string /\
     addr_String (Multiplex_LocalAddr (mp st)) = "gomux:local"%string /\
     addr_Network (Multiplex_RemoteAddr (mp st)) = "gomux"%string /\
     addr_String (Multiplex_RemoteAddr (mp st)) = "gomux:remote"%string) /\
  (forall l r, con (mp st) = ConnHasAddr l r ->
     Multiplex_LocalAddr (mp st) = l /\ Multiplex_RemoteAddr (mp st) = r) /\
  Stream_LocalAddr st = Multiplex_LocalAddr (mp st) /\
  Stream_RemoteAddr st = Multiplex_RemoteAddr (mp st).
Proof.
  unfold Stream_LocalAddr, Stream_RemoteAddr, Multiplex_LocalAddr, Multiplex_RemoteAddr.
  split; [|split; [|split; reflexivity]].
  - intros ->. repeat split.
  - intros l r ->. split; reflexivity.
Qed.

Lemma addr_delegation_witness :
  addr_String (Multiplex_LocalAddr exMux) = "gomux:local"%string /\
  Multiplex_RemoteAddr exTcpMux = mkNetAddr "tcp" "10.0.0.2:4001".
Proof.
  split.
  - destruct (addr_delegation exState) as [H _].
    destruct (H eq_refl) as (_ & Hs & _). exact Hs.
  - destruct (addr_delegation (mkState exStream exTcpMux [])) as (_ & H & _).
    destruct (H _ _ eq_refl) as [_ Hr]. exact Hr.
Defined.

(** ** Deadline setters *)

(** C7, as the code has it. [SetReadDeadline] answers [errStreamClosed]
    when the remote side is closed and otherwise makes [t] the target of the
    read deadline and returns nil; [SetWriteDeadline] does the same with the
    local side and the write deadline. [SetDeadline] answers
    [errStreamClosed] only when both sides are closed; otherwise it returns
    nil, makes [t] the target of the deadline of every side that is still
    open and leaves the deadline of a closed side as it is. A rejected call
    changes nothing, an accepted one nothing but the deadlines named. *)
Theorem set_deadlines_spec (t : Z) (st : State) :
  (closedRemote (stream st) = true ->
     SetReadDeadline t st = Done (Some errStreamClosed, st)) /\
  (closedRemote (stream st) = false ->
     exists st',
       SetReadDeadline t st = Done (None, st') /\
       target (rDeadline (stream st')) = t /\
       wDeadline (stream st') = wDeadline (stream st) /\
       besides_deadlines st' = besides_deadlines st) /\
  (closedLocal (stream st) = true ->
     SetWriteDeadline t st = Done (Some errStreamClosed, st)) /\
  (closedLocal (stream st) = false ->
     exists st',
       SetWriteDeadline t st = Done (None, st') /\
       target (wDeadline (stream st')) = t /\
       rDeadline (stream st') = rDeadline (stream st) /\
       besides_deadlines st' = besides_deadlines st) /\
  (closedRemote (stream st) = true -> closedLocal (stream st) = true ->
     SetDeadline t st = Done (Some errStreamClosed, st)) /\
  (closedRemote (stream st) && closedLocal (stream st) = false ->
     exists st',
       SetDeadline t st = Done (None, st') /\
       (if closedRemote (stream st)
        then rDeadline (stream st') = rDeadline (stream st)
        else target (rDeadline (stream st')) = t) /\
       (if closedLocal (stream st)
        then wDeadline (stream st') = wDeadline (stream st)
        else target (wDeadline (stream st')) = t) /\
       besides_deadlines st' = besides_deadlines st).
Proof.
  destruct st as [s m p]. destruct s as [i nm q qc ex eb rd wd cr rs cl].
  unfold SetReadDeadline, SetWriteDeadline, SetDeadline, isClosed, deadline_set,
    besides_deadlines.
  mrun.
  repeat split.
  - intros ->. reflexivity.
  - intros ->. eexists. split; [reflexivity|]. simpl. repeat split; reflexivity.
  - intros ->. reflexivity.
  - intros ->. eexists. split; [reflexivity|]. simpl. repeat split; reflexivity.
  - intros -> ->. reflexivity.
  - intros Hopen. destruct cr, cl; try discriminate Hopen; simpl;
      (eexists; split; [reflexivity|]); simpl; repeat split; reflexivity.
Qed.

(** An open stream takes a read deadline; a stream whose remote side is
    closed refuses it, yet [SetDeadline] on it returns nil and moves the
    write deadline only. *)
Lemma set_deadlines_spec_witness :
  (exists st', SetReadDeadline 100 exState = Done (None, st') /\
               target (rDeadline (stream st')) = 100) /\
  SetReadDeadline 100 exHalfClosedState = Done (Some errStreamClosed, exHalfClosedState) /\
  (exists st', SetDeadline 100 exHalfClosedState = Done (None, st') /\
               rDeadline (stream st') = rDeadline (stream exHalfClosedState) /\
               target (wDeadline (stream st')) = 100).
Proof.
  destruct (set_deadlines_spec 100 exState) as (_ & Hr & _).
  destruct (set_deadlines_spec 100 exHalfClosedState) as (Hrej & _ & _ & _ & _ & Hd).
  split; [|split].
  - destruct (Hr eq_refl) as (st' & H & Ht & _). exists st'. split; [exact H|exact Ht].
  - exact (Hrej eq_refl).
  - destruct (Hd eq_refl) as (st' & H & Hrd & Hwd & _).
    exists st'. split; [exact H|]. split; [exact Hrd|exact Hwd].
Defined.

(** C7 as stated fails for [SetDeadline] on a stream whose remote side is
    closed and whose local side is open: [SetReadDeadline] rejects there
    with [errStreamClosed], but [SetDeadline] returns nil, leaves the read
    deadline at its old target 0 and sets the write deadline. *)
Lemma SetDeadline_half_closed_counterexample :
  closedRemote (stream exHalfClosedState) = true /\
  SetReadDeadline 100 exHalfClosedState = Done (Some errStreamClosed, exHalfClosedState) /\
  SetDeadline 100 exHalfClosedState =
    Done (None,
          mkState (with_wDeadline (mkDeadline 100) (with_closedRemote true exStream))
                  exMux []) /\
  target (rDeadline (with_wDeadline (mkDeadline 100) (with_closedRemote true exStream))) = 0 /\
  target (wDeadline (with_wDeadline (mkDeadline 100) (with_closedRemote true exStream))) = 100.
Proof. repeat split; reflexivity. Qed.

(** ** Reset *)

(** C5. The first [Reset] of a stream that is neither fully closed nor reset
    fires the reset signal, closes both sides, clears both deadlines, starts
    one Reset-frame task and deletes the stream from the channel table,
    touching nothing else; a second [Reset] returns nil and changes
    nothing. *)
Theorem Reset_idempotent (st : State) :
  closedRemote (stream st) && isClosed (stream st) = false ->
  reset (stream st) = false ->
  exists st',
    Reset st = Done (None, st') /\
    reset (stream st') = true /\
    closedLocal (stream st') = true /\
    closedRemote (stream st') = true /\
    target (rDeadline (stream st')) = timeZero /\
    target (wDeadline (stream st')) = timeZero /\
    resetLog (mp st') = resetLog (mp st) ++ [(header (sid (stream st)) resetTag, true)] /\
    channels (mp st') = delete (sid (stream st)) (channels (mp st)) /\
    (sid (stream st'), name (stream st'), dataIn (stream st'), dataInClosed (stream st'),
     extra (stream st'), exbuf (stream st')) =
    (sid (stream st), name (stream st), dataIn (stream st), dataInClosed (stream st),
     extra (stream st), exbuf (stream st)) /\
    (con (mp st'), shutdown (mp st'), sendLog (mp st'), sendScript (mp st'), pool st') =
    (con (mp st), shutdown (mp st), sendLog (mp st), sendScript (mp st), pool st) /\
    Reset st' = Done (None, st').
Proof.
  destruct st as [s m p]. destruct s as [i nm q qc ex eb rd wd cr rs cl].
  simpl. intros Hopen ->.
  unfold Reset, doCloseLocal, cancelDeadlines, go_sendResetMsg, deleteChannel, isClosed in *.
  mrun. rewrite Hopen. simpl.
  eexists. split; [reflexivity|]. simpl.
  repeat (split; [reflexivity|]). reflexivity.
Qed.

Lemma Reset_idempotent_witness :
  exists st', Reset exBufferedState = Done (None, st') /\
              Reset st' = Done (None, st') /\
              resetLog (mp st') = [(14, true)].
Proof.
  destruct (Reset_idempotent exBufferedState eq_refl eq_refl)
    as (st' & H1 & _ & _ & _ & _ & _ & Hlog & _ & _ & _ & H2).
  exists st'. split; [exact H1|]. split; [exact H2|]. exact Hlog.
Defined.

(** Without the reset signal [Read] never answers [ErrReset]. *)
Lemma Read_not_reset (c : selectCase) (b : list byte) (st : State) :
  reset (stream st) = false ->
  forall b' n e st', Read c b st = Done ((b', n, e), st') -> e <> Some ErrReset.
Proof.
  intros Hr b' n e st'. unfold Read. munfold. simpl. rewrite Hr.
  destruct (extra (stream st)) eqn:Hex.
  - destruct (Read_loop _ b 0 st) as [[[b1 n1] st1]| | |]; try discriminate.
    intros [= <- <- <- <-]. discriminate.
  - destruct c as [| |now]; unfold waitForData; munfold; simpl.
    + rewrite Hr. discriminate.
    + unfold recvDataIn. munfold. simpl.
      destruct (dataIn (stream st)) as [|x q]; simpl.
      * destruct (dataInClosed (stream st)); try discriminate.
        intros [= <- <- <- <-]. discriminate.
      * match goal with |- context [Read_loop ?f ?bb ?nn ?s] =>
          destruct (Read_loop f bb nn s) as [[[b1 n1] st1]| | |] end; try discriminate.
        intros [= <- <- <- <-]. discriminate.
    + destruct (deadline_ready _ now); try discriminate.
      intros [= <- <- <- <-]. discriminate.
Qed.

(** C9. [Reset] on a stream closed on both sides returns nil and leaves the
    whole state as it is, so a [Read] after it behaves as before it: if
    the reset signal had not fired it never answers [ErrReset], and once the
    inbound queue is closed and drained it answers [EOF]. *)
Theorem Reset_fully_closed_noop (st : State) :
  closedRemote (stream st) = true ->
  isClosed (stream st) = true ->
  Reset st = Done (None, st) /\
  (forall c b, (_ ← Reset; Read c b) st = Read c b st) /\
  (reset (stream st) = false ->
     (forall c b b' n e st',
        (_ ← Reset; Read c b) st = Done ((b', n, e), st') -> e <> Some ErrReset) /\
     (extra (stream st) = None -> dataIn (stream st) = [] ->
      dataInClosed (stream st) = true ->
      forall b, (_ ← Reset; Read SelData b) st = Done ((b, 0%nat, Some EOF), st))).
Proof.
  intros Hcr Hcl.
  assert (HR : Reset st = Done (None, st)).
  { unfold Reset. munfold. rewrite Hcr, Hcl. reflexivity. }
  assert (HRR : forall c b, (_ ← Reset; Read c b) st = Read c b st).
  { intros c b. unfold mbind, M_bind, bind. rewrite HR. reflexivity. }
  split; [exact HR|]. split; [exact HRR|].
  intros Hrs. split.
  - intros c b b' n e st'. rewrite HRR. apply Read_not_reset. exact Hrs.
  - intros Hex Hq Hqc b. rewrite HRR.
    unfold Read, waitForData, recvDataIn. munfold.
    rewrite Hrs, Hex. simpl. rewrite Hq, Hqc. reflexivity.
Qed.

(** A stream closed by both peers, its queue drained. *)
Lemma Reset_fully_closed_noop_witness :
  let st := mkState (with_closedLocal true (with_closedRemote true
                       (mkStream exID "echo" [] true None None
                          (mkDeadline 0) (mkDeadline 0) false false false)))
                    exMux [] in
  Reset st = Done (None, st) /\
  (_ ← Reset; Read SelData [x00]) st = Done (([x00], 0%nat, Some EOF), st).
Proof.
  intros st.
  destruct (Reset_fully_closed_noop st eq_refl eq_refl) as (H1 & _ & H3).
  split; [exact H1|].
  destruct (H3 eq_refl) as [_ H4].
  exact (H4 eq_refl eq_refl eq_refl [x00]).
Defined.

(** ** Close *)

(** [Close] submits its frame before it looks at [isClosed]: on a stream
    that is already closed locally it returns nil and leaves the stream as
    it is, but the send path has been called once more. *)
Lemma Close_when_closed (R : Z) (st : State) :
  isClosed (stream st) = true ->
  exists st',
    Close R st = Done (None, st') /\
    stream st' = stream st /\ pool st' = pool st /\
    channels (mp st') = channels (mp st) /\
    sendLog (mp st') =
      sendLog (mp st) ++
      [mkSendCall (DoneTimeout R) (header (sid (stream st)) closeTag) []
                  (match sendScript (mp st) with [] => None | r :: _ => r end)].
Proof.
  intros Hcl. unfold Close, sendMsg. mrun. rewrite Hcl.
  eexists. split; [reflexivity|]. simpl. repeat split; reflexivity.
Qed.

(** The first [Close] of a stream whose frame is accepted: the frame is
    submitted under [ResetStreamTimeout], the local side is closed, and the
    stream leaves the channel table exactly when the remote side was closed
    already (its deadlines are then cleared too). *)
Lemma Close_first (R : Z) (st : State) :
  isClosed (stream st) = false ->
  match sendScript (mp st) with [] => None | r :: _ => r end = None ->
  exists st',
    Close R st = Done (None, st') /\
    closedLocal (stream st') = true /\
    closedRemote (stream st') = closedRemote (stream st) /\
    reset (stream st') = reset (stream st) /\
    sendLog (mp st') =
      sendLog (mp st) ++
      [mkSendCall (DoneTimeout R) (header (sid (stream st)) closeTag) [] None] /\
    channels (mp st') =
      (if closedRemote (stream st) then delete (sid (stream st)) (channels (mp st))
       else channels (mp st)).
Proof.
  intros Hcl Hscript. unfold Close, sendMsg. mrun. rewrite Hcl, Hscript. simpl.
  unfold doCloseLocal, cancelDeadlines, deleteChannel. mrun.
  destruct (closedRemote (stream st)) eqn:Hcr; simpl;
    (eexists; split; [reflexivity|]); simpl; rewrite ?Hcr; repeat split; reflexivity.
Qed.

(** C6. Two calls of [Close] on an open stream of a healthy session: the
    second call returns nil and leaves the stream as it is, yet a second
    Close frame has been submitted to the send path and accepted. *)
Theorem Close_twice_submits_two_frames :
  exists st1 st2,
    Close 5000 exState = Done (None, st1) /\
    Close 5000 st1 = Done (None, st2) /\
    stream st2 = stream st1 /\
    sendLog (mp st1) = [mkSendCall (DoneTimeout 5000) 12 [] None] /\
    sendLog (mp st2) = [mkSendCall (DoneTimeout 5000) 12 [] None;
                        mkSendCall (DoneTimeout 5000) 12 [] None].
Proof.
  destruct (Close_first 5000 exState eq_refl eq_refl) as (st1 & H1 & Hcl & _ & _ & Hlog1 & _).
  destruct (Close_when_closed 5000 st1 Hcl) as (st2 & H2 & Hs & _ & _ & Hlog2).
  exists st1, st2. split; [exact H1|]. split; [exact H2|]. split; [exact Hs|].
  split; [exact Hlog1|].
  rewrite Hlog2, Hlog1.
  assert (Hst1 : st1 = mkState (with_closedLocal true exStream)
                          (mkMultiplex ConnPlain {[ exID := "echo"%string ]} false
                             [mkSendCall (DoneTimeout 5000) 12 [] None] [] []) []).
  { assert (Hc : Close 5000 exState =
                 Done (None, mkState (with_closedLocal true exStream)
                          (mkMultiplex ConnPlain {[ exID := "echo"%string ]} false
                             [mkSendCall (DoneTimeout 5000) 12 [] None] [] []) []))
      by reflexivity.
    rewrite H1 in Hc. congruence. }
  rewrite Hst1. reflexivity.
Qed.

(** ** Write *)

Lemma chunks_nil fuel m : chunks fuel m [] = [].
Proof. destruct fuel; reflexivity. Qed.

Lemma chunks_fuel (m : nat) : (0 < m)%nat ->
  forall fuel (b : list byte), (length b <= fuel)%nat ->
    chunks fuel m b = chunks (length b) m b.
Proof.
  intros Hm fuel. induction fuel as [fuel IH] using lt_wf_ind.
  intros b Hlen. destruct b as [|x b]; [rewrite chunks_nil; reflexivity|].
  destruct fuel as [|fuel]; [simpl in Hlen; lia|].
  change (length (x :: b)) with (S (length b)).
  cbn [chunks]. f_equal.
  assert (Hd : (length (drop m (x :: b)) <= length b)%nat).
  { rewrite length_drop. simpl. lia. }
  rewrite (IH fuel) by (simpl in Hlen; lia).
  destruct (Nat.eq_dec (length (drop m (x :: b))) (length b)) as [->|Hne]; [reflexivity|].
  symmetry. destruct (length b) as [|k] eqn:Hk; [lia|].
  apply (IH (S k)); simpl in *; lia.
Qed.

Lemma chunks_concat (m : nat) : (0 < m)%nat ->
  forall fuel (b : list byte), (length b <= fuel)%nat -> concat (chunks fuel m b) = b.
Proof.
  intros Hm fuel. induction fuel as [|fuel IH]; intros b Hlen.
  - destruct b; [reflexivity|simpl in Hlen; lia].
  - destruct b as [|x b]; [reflexivity|].
    cbn [chunks concat]. rewrite IH.
    + apply take_drop.
    + rewrite length_drop. simpl in *. lia.
Qed.

Lemma chunks_bounded (m : nat) : (0 < m)%nat ->
  forall fuel (b : list byte),
    Forall (fun c => (0 < length c <= m)%nat) (chunks fuel m b).
Proof.
  intros Hm fuel. induction fuel as [|fuel IH]; intros b; [constructor|].
  destruct b as [|x b]; [constructor|].
  cbn [chunks]. constructor; [|apply IH].
  rewrite length_take. simpl. lia.
Qed.

(** Every piece but the last is full. *)
Lemma chunks_full (m : nat) : (0 < m)%nat ->
  forall fuel (b : list byte) i c,
    (S i < length (chunks fuel m b))%nat ->
    chunks fuel m b !! i = Some c -> length c = m.
Proof.
  intros Hm fuel. induction fuel as [|fuel IH]; intros b i c Hi Hc; [simpl in Hi; lia|].
  destruct b as [|x b]; [simpl in Hi; lia|].
  cbn [chunks] in *. destruct i as [|i].
  - simpl in Hc. injection Hc as <-.
    rewrite length_take.
    destruct (drop m (x :: b)) as [|y r] eqn:Hd.
    + rewrite chunks_nil in Hi. simpl in Hi. lia.
    + assert (length (drop m (x :: b)) <> 0)%nat by (rewrite Hd; simpl; lia).
      rewrite length_drop in *. lia.
  - simpl in Hc, Hi. apply (IH (drop m (x :: b)) i c); [lia|exact Hc].
Qed.

Lemma chunks_count (m : nat) : (0 < m)%nat ->
  forall fuel (b : list byte), (length b <= fuel)%nat ->
    length (chunks fuel m b) = ((length b + m - 1) / m)%nat.
Proof.
  intros Hm fuel. induction fuel as [|fuel IH]; intros b Hlen.
  - destruct b; [|simpl in Hlen; lia]. simpl.
    symmetry. apply Nat.div_small. lia.
  - destruct b as [|x b].
    + simpl. symmetry. apply Nat.div_small. lia.
    + cbn [chunks length]. rewrite IH by (rewrite length_drop; simpl in *; lia).
      rewrite length_drop. cbn [length].
      destruct (le_lt_dec (S (length b)) m) as [Hle|Hgt].
      * replace (S (length b) - m)%nat with 0%nat by lia.
        rewrite (Nat.div_small (0 + m - 1) m) by lia.
        apply (Nat.div_unique _ m 1%nat (length b)); lia.
      * replace (S (length b) + m - 1)%nat with ((S (length b) - m + m - 1) + 1 * m)%nat by lia.
        rewrite Nat.div_add by lia. lia.
Qed.

Lemma after_sends_nil st : after_sends [] st = st.
Proof.
  destruct st as [s [c ch sd sl rl sc] p]. unfold after_sends. simpl.
  rewrite app_nil_r. reflexivity.
Qed.

Lemma after_sends_cons x l st :
  after_sends (x :: l) st = after_sends l (after_sends [x] st).
Proof.
  destruct st as [s [c ch sd sl rl sc] p]. unfold after_sends. simpl.
  rewrite <- app_assoc. simpl. do 2 f_equal.
  destruct sc; simpl; [rewrite drop_nil|]; reflexivity.
Qed.

Lemma after_sends_app l1 l2 st :
  after_sends (l1 ++ l2) st = after_sends l2 (after_sends l1 st).
Proof.
  revert st. induction l1 as [|x l1 IH]; intros st; simpl.
  - rewrite after_sends_nil. reflexivity.
  - rewrite after_sends_cons, IH, <- after_sends_cons. reflexivity.
Qed.

Lemma write_open (c : list byte) (st : State) :
  isClosed (stream st) = false ->
  write c st =
    Done (match next_answer st with
          | None => (length c, None)
          | Some e => (0%nat, Some (write_error e))
          end,
          after_sends [message_call (stream st) (next_answer st) c] st).
Proof.
  intros Hcl. unfold write, sendMsg, next_answer, after_sends, message_call, write_error.
  mrun. rewrite Hcl.
  destruct st as [s [cn ch sd sl rl sc] p]; simpl.
  destruct sc as [|[e|] sc]; reflexivity.
Qed.

Lemma write_closed (c : list byte) (st : State) :
  isClosed (stream st) = true ->
  write c st = Done ((0%nat, Some errClosedWrite), st).
Proof. intros Hcl. unfold write. mrun. rewrite Hcl. reflexivity. Qed.

(** [write] always returns, and on success it reports the whole piece. *)
Lemma write_returns (c : list byte) (st : State) :
  exists n err st', write c st = Done ((n, err), st') /\ (err = None -> n = length c).
Proof.
  destruct (isClosed (stream st)) eqn:Hcl.
  - rewrite write_closed by exact Hcl. do 3 eexists. split; [reflexivity|discriminate].
  - rewrite write_open by exact Hcl.
    destruct (next_answer st); do 3 eexists; (split; [reflexivity|]); [discriminate|reflexivity].
Qed.

Section WriteProofs.

Variable MaxMessageSize : Z.
Hypothesis MaxMessageSize_pos : 0 < MaxMessageSize.

Lemma take_min_length (m : nat) (l : list byte) :
  take (Nat.min (length l) m) l = take m l.
Proof.
  destruct (le_lt_dec m (length l)) as [H|H].
  - rewrite Nat.min_r by exact H. reflexivity.
  - rewrite Nat.min_l by lia. rewrite !take_ge by lia. reflexivity.
Qed.

(** The loop of [Write] submits the pieces of the rest of [b] in order. *)
Lemma Write_loop_submit (fuel : nat) :
  forall (b : list byte) (w : nat) (st : State),
    (w <= length b)%nat -> (length b - w < fuel)%nat ->
    Write_loop MaxMessageSize fuel b w st =
    submit_all (chunks (length b - w) (Z.to_nat MaxMessageSize) (drop w b)) w st.
Proof.
  induction fuel as [|fuel IH]; intros b w st Hw Hfuel; [lia|].
  cbn [Write_loop].
  destruct (w <? length b)%nat eqn:Hlt.
  - apply Nat.ltb_lt in Hlt.
    set (m := Z.to_nat MaxMessageSize).
    assert (Hm : (0 < m)%nat) by (unfold m; lia).
    set (wl := if Z.of_nat (length b) - Z.of_nat w >? MaxMessageSize
               then MaxMessageSize else Z.of_nat (length b) - Z.of_nat w).
    assert (Hwl : Z.to_nat wl = Nat.min (length (drop w b)) m).
    { unfold wl, m. rewrite length_drop.
      destruct (Z.gtb_spec (Z.of_nat (length b) - Z.of_nat w) MaxMessageSize); lia. }
    assert (Hneg : (wl <? 0) = false).
    { unfold wl. apply Z.ltb_ge.
      destruct (Z.gtb_spec (Z.of_nat (length b) - Z.of_nat w) MaxMessageSize); lia. }
    rewrite Hneg, Hwl, take_min_length.
    destruct (length b - w)%nat as [|k] eqn:Hk; [lia|].
    destruct (drop w b) as [|x r] eqn:Hd.
    { apply (f_equal length) in Hd. rewrite length_drop in Hd. simpl in Hd. lia. }
    cbn [chunks submit_all]. unfold mbind, M_bind, bind.
    destruct (write_returns (take m (x :: r)) st) as (n & err & st1 & Hwr & Hn).
    rewrite Hwr. destruct err as [e|]; [reflexivity|].
    rewrite (Hn eq_refl).
    assert (Hlen : length (take m (x :: r)) = Nat.min m (S k)).
    { rewrite length_take, <- Hd, length_drop, Hk. reflexivity. }
    rewrite IH by lia.
    assert (Hrest : drop (w + length (take m (x :: r))) b = drop m (x :: r)).
    { rewrite Hlen, <- Hd, drop_drop.
      destruct (le_lt_dec m (S k)) as [H|H].
      - rewrite Nat.min_l by exact H. reflexivity.
      - rewrite !drop_ge by lia. reflexivity. }
    rewrite Hrest.
    assert (Hr : (length (drop m (x :: r)) <= k)%nat).
    { rewrite length_drop, <- Hd, length_drop. lia. }
    rewrite (chunks_fuel m Hm k) by exact Hr.
    apply (f_equal (fun cs => submit_all cs _ st1)).
    apply chunks_fuel; [exact Hm|].
    rewrite Hlen, length_drop, <- Hd, length_drop. lia.
  - apply Nat.ltb_ge in Hlt. replace (length b - w)%nat with 0%nat by lia.
    reflexivity.
Qed.

End WriteProofs.

(** All pieces accepted: every piece is in the log, in order, and the
    count is the total length. *)
Lemma submit_all_accepted (cs : list (list byte)) :
  forall (w : nat) (st : State),
    isClosed (stream st) = false ->
    Forall (fun r => r = None) (take (length cs) (sendScript (mp st))) ->
    submit_all cs w st =
    Done ((w + length (concat cs), None)%nat,
          after_sends (map (message_call (stream st) None) cs) st).
Proof.
  induction cs as [|c cs IH]; intros w st Hcl Hall.
  - simpl. rewrite after_sends_nil, Nat.add_0_r. reflexivity.
  - cbn [submit_all]. unfold mbind, M_bind, bind.
    rewrite write_open by exact Hcl.
    assert (Hnext : next_answer st = None).
    { unfold next_answer. destruct (sendScript (mp st)) as [|r sc]; [reflexivity|].
      simpl in Hall. inversion Hall; subst. reflexivity. }
    rewrite Hnext. rewrite IH.
    + cbn [map concat]. rewrite (after_sends_cons _ (map _ cs)).
      rewrite length_app. simpl. do 3 f_equal. lia.
    + exact Hcl.
    + simpl. destruct (sendScript (mp st)) as [|r sc]; simpl.
      * rewrite take_nil. constructor.
      * simpl in Hall. inversion Hall; subst. rewrite drop_0. assumption.
Qed.

(** The piece of index [k] is the first one refused: the pieces before it
    and the refused one are in the log, in order, and the count is the
    length of the pieces before it. *)
Lemma submit_all_refused (cs : list (list byte)) :
  forall (k w : nat) (e : error) (c : list byte) (st : State),
    isClosed (stream st) = false ->
    Forall (fun r => r = None) (take k (sendScript (mp st))) ->
    sendScript (mp st) !! k = Some (Some e) ->
    cs !! k = Some c ->
    submit_all cs w st =
    Done ((w + length (concat (take k cs)), Some (write_error e))%nat,
          after_sends (map (message_call (stream st) None) (take k cs)
                         ++ [message_call (stream st) (Some e) c]) st).
Proof.
  induction cs as [|c0 cs IH]; intros k w e c st Hcl Hall Hk Hc; [discriminate|].
  cbn [submit_all]. unfold mbind, M_bind, bind.
  rewrite write_open by exact Hcl.
  destruct (sendScript (mp st)) as [|r sc] eqn:Hsc; [discriminate|].
  unfold next_answer. rewrite Hsc.
  destruct k as [|k].
  - simpl in Hk, Hc. injection Hk as ->. injection Hc as ->.
    simpl. rewrite Nat.add_0_r. reflexivity.
  - simpl in Hk, Hc, Hall. inversion Hall; subst.
    rewrite (IH k _ e c).
    + cbn [take map concat app]. rewrite (after_sends_cons _ (_ ++ _)).
      rewrite length_app. simpl. do 3 f_equal. lia.
    + exact Hcl.
    + simpl. rewrite Hsc. simpl. rewrite drop_0. assumption.
    + simpl. rewrite Hsc. simpl. rewrite drop_0. exact Hk.
    + exact Hc.
Qed.

(** C3. [Write] cuts [b] into consecutive pieces of at most
    [MaxMessageSize] bytes (all full but possibly the last, so
    ceil(len(b)/MaxMessageSize) of them) and submits them in order through
    [write], that is, through the send path with the stream's Message
    header; when all are accepted it returns [len(b)], and when the piece of
    index [k] is the first one refused it returns the length of the pieces
    before it together with the error. *)
Theorem Write_fragments (MaxMessageSize : Z) (b : list byte) (st : State) :
  0 < MaxMessageSize ->
  let cs := fragments MaxMessageSize b in
  let s := stream st in
  concat cs = b /\
  Forall (fun c => 0 < Z.of_nat (length c) <= MaxMessageSize) cs /\
  (forall i c, (S i < length cs)%nat -> cs !! i = Some c ->
               Z.of_nat (length c) = MaxMessageSize) /\
  Z.of_nat (length cs) = (Z.of_nat (length b) + MaxMessageSize - 1) / MaxMessageSize /\
  Write MaxMessageSize b st = submit_all cs 0 st /\
  (isClosed s = false ->
     (Forall (fun r => r = None) (take (length cs) (sendScript (mp st))) ->
        Write MaxMessageSize b st =
        Done ((length b, None), after_sends (map (message_call s None) cs) st)) /\
     (forall k e c,
        Forall (fun r => r = None) (take k (sendScript (mp st))) ->
        sendScript (mp st) !! k = Some (Some e) ->
        cs !! k = Some c ->
        Write MaxMessageSize b st =
        Done ((length (concat (take k cs)), Some (write_error e)),
              after_sends (map (message_call s None) (take k cs)
                             ++ [message_call s (Some e) c]) st))) /\
  (isClosed s = true -> b <> [] ->
     Write MaxMessageSize b st = Done ((0%nat, Some errClosedWrite), st)).
Proof.
  intros Hpos cs s.
  set (m := Z.to_nat MaxMessageSize).
  assert (Hm : (0 < m)%nat) by (unfold m; lia).
  assert (HW : Write MaxMessageSize b st = submit_all cs 0 st).
  { unfold Write. rewrite Write_loop_submit by (try exact Hpos; lia).
    rewrite Nat.sub_0_r, drop_0. reflexivity. }
  assert (Hcat : concat cs = b) by (apply chunks_concat; [exact Hm|lia]).
  split; [exact Hcat|].
  split.
  { eapply Forall_impl; [|apply (chunks_bounded m Hm)].
    intros c Hc. simpl in Hc. unfold m in Hc. lia. }
  split.
  { intros i c Hi Hc.
    assert (length c = m) by (eapply chunks_full; [exact Hm|exact Hi|exact Hc]).
    unfold m in *. lia. }
  split.
  { unfold cs, fragments. fold m. rewrite chunks_count by (try exact Hm; lia).
    rewrite Nat2Z.inj_div. f_equal; unfold m; lia. }
  split; [exact HW|].
  split.
  - intros Hcl. split.
    + intros Hall. rewrite HW, submit_all_accepted by assumption.
      rewrite Hcat. reflexivity.
    + intros k e c Hall Hk Hc. rewrite HW.
      rewrite (submit_all_refused cs k 0 e c st) by assumption. reflexivity.
  - intros Hcl Hb. rewrite HW.
    destruct cs as [|c cs'] eqn:Hcs.
    + simpl in Hcat. congruence.
    + cbn [submit_all]. unfold mbind, M_bind, bind.
      rewrite write_closed by exact Hcl. reflexivity.
Qed.

(** Fifty bytes with [MaxMessageSize] 16: four Message frames of 16, 16, 16
    and 2 bytes, and 50 is returned. *)
Lemma Write_fragments_witness :
  map length (fragments 16 (replicate 50 x00)) = [16; 16; 16; 2]%nat /\
  exists st',
    Write 16 (replicate 50 x00) exState = Done ((50%nat, None), st') /\
    map call_header (sendLog (mp st')) = [10; 10; 10; 10] /\
    map (fun c => length (call_data c)) (sendLog (mp st')) = [16; 16; 16; 2]%nat.
Proof.
  split; [reflexivity|].
  destruct (Write_fragments 16 (replicate 50 x00) exState ltac:(lia))
    as (_ & _ & _ & _ & _ & H & _).
  destruct (H eq_refl) as [Hok _].
  eexists. split.
  - apply Hok. vm_compute. constructor.
  - split; reflexivity.
Defined.

(** ** The read pipeline *)

Lemma Read_loop_S (fuel : nat) (b : list byte) (n : nat) (st : State) :
  Read_loop (S fuel) b n st =
  match extra (stream st) with
  | Some x =>
      if (n <? length b)%nat then
        match Read_advance x (copy_into b n (elems x)).1 st with
        | Done (_, st1) =>
            Read_loop fuel (copy_into b n (elems x)).2 (n + (copy_into b n (elems x)).1) st1
        | Blocked => Blocked
        | Panic => Panic
        | OutOfFuel => OutOfFuel
        end
      else Done ((b, n), st)
  | None => Done ((b, n), st)
  end.
Proof.
  cbn [Read_loop]. unfold mbind, M_bind, bind, getStream.
  destruct (extra (stream st)) as [x|]; [|reflexivity].
  destruct (n <? length b)%nat; [|reflexivity].
  unfold copy_into, Read_advance. cbn [fst snd].
  unfold mbind, M_bind, bind, getStream.
  destruct (_ <? length (elems x))%nat; reflexivity.
Qed.

(** The state after [Read_advance], case by case. *)
Lemma Read_advance_run (x : buf) (read : nat) (st : State) :
  Read_advance x read st =
  Done (tt,
        if (read <? length (elems x))%nat then
          mkState (with_extra (Some (reslice x read)) (stream st)) (mp st) (pool st)
        else
          let p := pool st ++ match exbuf (stream st) with Some e => [arr e] | None => [] end in
          match dataIn (stream st) with
          | [] => mkState (with_exbuf None (with_extra None (stream st))) (mp st) p
          | r :: q =>
              mkState (with_exbuf r (with_extra r (with_dataIn q
                         (with_exbuf None (with_extra None (stream st)))))) (mp st) p
          end).
Proof.
  unfold Read_advance, preloadData, recvDataIn. munfold.
  destruct (read <? length (elems x))%nat; [reflexivity|].
  destruct st as [s m p]. destruct s as [i nm q qc ex eb rd wd cr rs cl]. simpl.
  destruct eb as [e|]; simpl; destruct q as [|r q]; simpl;
    rewrite ?app_nil_r; try reflexivity; destruct qc; reflexivity.
Qed.

Lemma copy_into_read (b : list byte) (n : nat) (src : list byte) :
  (n < length b)%nat ->
  let read := (copy_into b n src).1 in
  (read <= length src)%nat /\ (n + read <= length b)%nat /\
  (src <> [] -> 0 < read)%nat /\
  ((read <? length src)%nat = true -> (n + read)%nat = length b) /\
  length (copy_into b n src).2 = length b.
Proof.
  intros Hn. unfold copy_into. cbn [fst snd].
  repeat split; try lia.
  - intros Hs. destruct src; [congruence|]. simpl. lia.
  - intros H. apply Nat.ltb_lt in H. lia.
  - rewrite !length_app, !length_take, length_drop. lia.
Qed.

(** With that fuel the loop returns; it never gives bytes back, stays
    within [b], and makes progress on a non-empty buffer. *)
Lemma Read_loop_returns (fuel : nat) :
  forall (b : list byte) (n : nat) (st : State),
    (Read_need b n (stream st) <= fuel)%nat ->
    exists b' n' st',
      Read_loop fuel b n st = Done ((b', n'), st') /\
      (n <= n')%nat /\ length b' = length b /\
      (n <= length b -> n' <= length b)%nat /\
      (forall x, extra (stream st) = Some x -> elems x <> [] ->
                 (n < length b)%nat -> (n < n')%nat).
Proof.
  induction fuel as [|fuel IH]; intros b n st Hfuel.
  { unfold Read_need in Hfuel. repeat case_match; lia. }
  rewrite Read_loop_S. unfold Read_need in Hfuel.
  destruct (extra (stream st)) as [x|] eqn:Hex.
  2:{ exists b, n, st. repeat split; try lia. intros; discriminate. }
  destruct (n <? length b)%nat eqn:Hn.
  2:{ exists b, n, st. apply Nat.ltb_ge in Hn. repeat split; try lia. }
  apply Nat.ltb_lt in Hn.
  destruct (copy_into_read b n (elems x) Hn) as (Hr1 & Hr2 & Hr3 & Hr4 & Hr5).
  rewrite Read_advance_run.
  set (read := (copy_into b n (elems x)).1) in *.
  set (b1 := (copy_into b n (elems x)).2) in *.
  match goal with |- context [Read_loop fuel b1 (n + read) ?s1] =>
    destruct (IH b1 (n + read)%nat s1) as (b' & n' & st' & HL & Hle & Hlen & Hin & _) end.
  { unfold Read_need.
    destruct (read <? length (elems x))%nat eqn:Hlt.
    - simpl. rewrite Hr5.
      assert (Hge : (n + read <? length b)%nat = false) by (apply Nat.ltb_ge; lia).
      rewrite Hge. lia.
    - destruct (dataIn (stream st)) as [|r q]; simpl; [lia|].
      destruct r; [|lia]. destruct (n + read <? length b1)%nat; simpl in Hfuel; lia. }
  exists b', n', st'. split; [exact HL|].
  rewrite Hr5 in Hlen, Hin.
  repeat split; try lia.
  intros x' Hx' Hne _. injection Hx' as <-. specialize (Hr3 Hne). lia.
Qed.




(** ** Returning buffers *)

Lemma returnBuffers_loop_run (q : list (option buf)) :
  forall (fuel : nat) (st : State),
    dataIn (stream st) = q -> (length q < fuel)%nat ->
    returnBuffers_loop fuel st =
    Done (tt, mkState (with_dataIn [] (stream st)) (mp st) (pool st ++ queued q)).
Proof.
  induction q as [|r q IH]; intros fuel st Hq Hfuel;
    (destruct fuel as [|fuel]; [simpl in Hfuel; lia|]);
    cbn [returnBuffers_loop]; unfold recvDataIn; munfold; rewrite Hq.
  - destruct st as [s m p]. destruct s as [i nm q qc ex eb rd wd cr rs cl].
    simpl in *. subst q. rewrite app_nil_r. destruct qc; reflexivity.
  - simpl in Hfuel. destruct r as [y|]; cbn [stream mp pool].
    + rewrite (IH fuel) by (simpl; first [reflexivity|lia]).
      simpl. rewrite <- app_assoc. reflexivity.
    + rewrite (IH fuel) by (simpl; first [reflexivity|lia]). reflexivity.
Qed.

(** [returnBuffers] hands every held buffer to the pool, once, and leaves
    none behind. *)
Lemma returnBuffers_run (st : State) :
  returnBuffers st =
  Done (tt, mkState (drained (stream st)) (mp st) (pool st ++ held (stream st))).
Proof.
  unfold returnBuffers, drained, held. munfold.
  destruct (exbuf (stream st)) as [e|] eqn:He; cbn [stream mp pool].
  - rewrite (returnBuffers_loop_run (dataIn (stream st))) by (simpl; first [reflexivity|lia]).
    simpl. rewrite <- app_assoc. reflexivity.
  - rewrite (returnBuffers_loop_run (dataIn (stream st))) by (simpl; first [reflexivity|lia]).
    reflexivity.
Qed.

Lemma held_drained (s : Stream) : held (drained s) = [].
Proof. unfold held, drained. destruct (exbuf s) eqn:He; simpl; [|rewrite He]; reflexivity. Qed.

(** C2, as the code has it. Once the reset signal has fired, every [Read]
    answers [ErrReset] with no byte and touches nothing. The buffers the
    stream holds are handed to the pool, each once, when [waitForData] takes
    its reset case; the stream then holds none, and returning buffers again
    releases nothing. *)
Theorem reset_fired_behaviour (st : State) :
  reset (stream st) = true ->
  (forall c b, Read c b st = Done ((b, 0%nat, Some ErrReset), st)) /\
  exists st',
    waitForData SelReset st = Done (Some ErrReset, st') /\
    pool st' = pool st ++ held (stream st) /\
    held (stream st') = [] /\
    exbuf (stream st') = None /\ dataIn (stream st') = [] /\
    mp st' = mp st /\ reset (stream st') = true /\
    (forall c b, Read c b st' = Done ((b, 0%nat, Some ErrReset), st')) /\
    returnBuffers st' = Done (tt, st').
Proof.
  intros Hrs.
  assert (HRead : forall st0, reset (stream st0) = true ->
            forall c b, Read c b st0 = Done ((b, 0%nat, Some ErrReset), st0)).
  { intros st0 H0 c b. unfold Read. munfold. rewrite H0. reflexivity. }
  split; [apply HRead; exact Hrs|].
  exists (mkState (drained (stream st)) (mp st) (pool st ++ held (stream st))).
  assert (Hrs' : reset (drained (stream st)) = true).
  { unfold drained. destruct (exbuf (stream st)); simpl; exact Hrs. }
  assert (Hex' : exbuf (drained (stream st)) = None).
  { unfold drained. destruct (exbuf (stream st)) eqn:He; simpl; [reflexivity|exact He]. }
  split.
  { unfold waitForData. munfold. rewrite Hrs. rewrite returnBuffers_run. reflexivity. }
  split; [reflexivity|]. split; [apply held_drained|].
  split; [exact Hex'|]. split; [reflexivity|]. split; [reflexivity|].
  split; [exact Hrs'|]. split; [apply HRead; exact Hrs'|].
  rewrite returnBuffers_run. cbn [stream mp pool].
  rewrite held_drained, app_nil_r. do 3 f_equal.
  unfold drained at 1. rewrite Hex'.
  unfold drained. destruct (exbuf (stream st)); reflexivity.
Qed.

(** The stream of [exBufferedState] after the reset signal has fired. *)
Lemma reset_fired_behaviour_witness :
  let st := mkState (with_reset true exBuffered) exMux [] in
  Read SelData [x00] st = Done (([x00], 0%nat, Some ErrReset), st) /\
  exists st', waitForData SelReset st = Done (Some ErrReset, st') /\
              pool st' = [7; 8; 9]%nat /\ held (stream st') = [].
Proof.
  intros st.
  destruct (reset_fired_behaviour st eq_refl) as (HR & st' & Hw & Hp & Hh & _).
  split; [apply HR|].
  exists st'. split; [exact Hw|]. split; [exact Hp|exact Hh].
Defined.

(** C2 as stated fails on the stream of [exBufferedState] once [Reset] has
    been called: a [Write] of one byte answers the closed-stream error and
    not [ErrReset], and a [Read] answers [ErrReset] while the three buffers
    the stream holds stay where they are and nothing reaches the pool. *)
Lemma reset_claim_counterexample :
  exists st,
    Reset exBufferedState = Done (None, st) /\
    reset (stream st) = true /\
    Write 16 [x01] st = Done ((0%nat, Some errClosedWrite), st) /\
    errClosedWrite <> ErrReset /\
    Read SelReset [x00] st = Done (([x00], 0%nat, Some ErrReset), st) /\
    held (stream st) = [7; 8; 9]%nat /\
    pool st = [].
Proof.
  eexists. split; [reflexivity|].
  split; [reflexivity|]. split; [reflexivity|]. split; [discriminate|].
  split; [reflexivity|]. split; reflexivity.
Qed.

(** ** The buffer invariant *)

Lemma Inv_bufs (st st' : State) : bufs st' = bufs st -> Inv st -> Inv st'.
Proof.
  unfold bufs, Inv, slices_ok, held. intros [= He Hb Hq Hp].
  rewrite He, Hb, Hq, Hp. tauto.
Qed.

Lemma subslice_refl (x : buf) : subslice x x.
Proof. split; [reflexivity|]. exists 0%nat. rewrite Nat.add_0_r. repeat split; lia. Qed.

Lemma subslice_reslice (x e : buf) (k : nat) :
  (k <= length (elems x))%nat -> subslice x e -> subslice (reslice x k) e.
Proof.
  intros Hk (Ha & j & Hj & Ho & Hel). split; [exact Ha|].
  exists (j + k)%nat. unfold reslice; simpl.
  rewrite Hel in Hk. rewrite length_drop in Hk.
  repeat split; [lia|lia|]. rewrite Hel, drop_drop. reflexivity.
Qed.

(** Taking a value off the queue into [extra] and [exbuf]. *)
Lemma Inv_load (s : Stream) (m : Multiplex) (p : list nat) (r : option buf) (q : list (option buf)) :
  dataIn s = r :: q ->
  Inv (mkState s m p) ->
  Inv (mkState (with_exbuf r (with_extra r (with_dataIn q s))) m p).
Proof.
  intros Hq [_ Hnd]. split.
  - split; simpl; [tauto|]. intros x e -> [= ->]. apply subslice_refl.
  - unfold held in *. simpl in *. rewrite Hq in Hnd.
    rewrite <- app_assoc in Hnd.
    apply list.NoDup_app in Hnd as (_ & _ & Hnd).
    destruct r; exact Hnd.
Qed.

Lemma Read_advance_Inv (x : buf) (read : nat) (st st1 : State) :
  Inv st -> extra (stream st) = Some x -> (read <= length (elems x))%nat ->
  Read_advance x read st = Done (tt, st1) -> Inv st1.
Proof.
  intros HI Hex Hread. rewrite Read_advance_run. intros [= <-].
  destruct st as [s m p]. simpl in *.
  destruct HI as [[Hiff Hsub] Hnd]. simpl in *.
  destruct (exbuf s) as [e|] eqn:He.
  2:{ destruct Hiff as [Hiff _]. rewrite Hiff in Hex by reflexivity. discriminate. }
  destruct (read <? length (elems x))%nat.
  - split.
    + split; simpl; rewrite He.
      * split; discriminate.
      * intros x' e' [= <-] [= <-]. apply subslice_reslice; [exact Hread|].
        apply Hsub; [exact Hex|reflexivity].
    + unfold held in *. simpl in *. rewrite He in *. exact Hnd.
  - assert (Hnd' : NoDup (queued (dataIn s) ++ p ++ [arr e])).
    { unfold held in Hnd. simpl in Hnd. rewrite He in Hnd. simpl in Hnd.
      rewrite app_assoc, <- Permutation_cons_append. exact Hnd. }
    destruct (dataIn s) as [|r q] eqn:Hq.
    + split; [split; simpl; [tauto|discriminate]|].
      unfold held. simpl. rewrite Hq. exact Hnd'.
    + split.
      * split; simpl; [tauto|]. intros x' e' -> [= ->]. apply subslice_refl.
      * unfold held. simpl. destruct r; exact Hnd'.
Qed.

Lemma Read_loop_Inv (fuel : nat) :
  forall (b : list byte) (n : nat) (st : State) r st',
    Read_loop fuel b n st = Done (r, st') -> Inv st -> Inv st'.
Proof.
  induction fuel as [|fuel IH]; intros b n st r st'; [discriminate|].
  rewrite Read_loop_S.
  destruct (extra (stream st)) as [x|] eqn:Hex; [|intros [= <- <-]; trivial].
  destruct (n <? length b)%nat eqn:Hn; [|intros [= <- <-]; trivial].
  apply Nat.ltb_lt in Hn.
  destruct (copy_into_read b n (elems x) Hn) as (Hr1 & _).
  destruct (Read_advance x (copy_into b n (elems x)).1 st) as [[[] st1]| | |] eqn:Hadv;
    try discriminate.
  intros HL HI. eapply IH; [exact HL|].
  eapply Read_advance_Inv; eauto.
Qed.

Lemma returnBuffers_Inv (st : State) :
  Inv st ->
  Inv (mkState (drained (stream st)) (mp st) (pool st ++ held (stream st))).
Proof.
  intros [[Hiff _] Hnd]. split.
  - unfold drained. destruct (exbuf (stream st)) eqn:He; split; simpl;
      rewrite ?He; try tauto; try discriminate.
  - cbn [stream pool]. rewrite held_drained. simpl.
    rewrite Permutation_app_comm. exact Hnd.
Qed.

Lemma preloadData_Inv (st : State) :
  Inv st -> exists st', preloadData st = Done (tt, st') /\ Inv st'.
Proof.
  intros HI. unfold preloadData, recvDataIn. munfold.
  destruct st as [s m p]. cbn [stream mp pool].
  destruct (dataIn s) as [|r q] eqn:Hq.
  - destruct (dataInClosed s); eexists; (split; [reflexivity|exact HI]).
  - eexists. split; [reflexivity|]. apply Inv_load; assumption.
Qed.

Lemma waitForData_Inv (c : selectCase) (st : State) r st' :
  waitForData c st = Done (r, st') -> Inv st -> Inv st'.
Proof.
  destruct c as [| |now]; unfold waitForData, recvDataIn; munfold.
  - destruct (reset (stream st)); [|discriminate].
    rewrite returnBuffers_run. intros [= <- <-]. apply returnBuffers_Inv.
  - destruct st as [s m p]. cbn [stream mp pool].
    destruct (dataIn s) as [|r0 q] eqn:Hq.
    + destruct (dataInClosed s); [|discriminate]. intros [= <- <-]. trivial.
    + intros [= <- <-]. apply Inv_load; assumption.
  - destruct (deadline_ready _ now); [|discriminate]. intros [= <- <-]. trivial.
Qed.

(** [waitForData] returns or blocks. *)
Lemma waitForData_total (c : selectCase) (st : State) :
  waitForData c st = Blocked \/ exists r st', waitForData c st = Done (r, st').
Proof.
  destruct c as [| |now]; unfold waitForData, recvDataIn; munfold.
  - destruct (reset (stream st)); [|left; reflexivity].
    rewrite returnBuffers_run. right. eauto.
  - destruct (dataIn (stream st)) as [|r0 q].
    + destruct (dataInClosed (stream st)); [right; eauto|left; reflexivity].
    + right. eauto.
  - destruct (deadline_ready _ now); [right; eauto|left; reflexivity].
Qed.

Lemma Read_Inv (c : selectCase) (b : list byte) (st : State) r st' :
  Read c b st = Done (r, st') -> Inv st -> Inv st'.
Proof.
  unfold Read. munfold.
  destruct (reset (stream st)); [intros [= <- <-]; trivial|].
  destruct (extra (stream st)) as [x|] eqn:Hex.
  - destruct (Read_loop _ b 0 st) as [[[b1 n1] st1]| | |] eqn:HL; try discriminate.
    intros [= <- <-]. eapply Read_loop_Inv; exact HL.
  - destruct (waitForData c st) as [[[e|] st1]| | |] eqn:Hw; try discriminate.
    + intros [= <- <-]. eapply waitForData_Inv; exact Hw.
    + destruct (Read_loop _ b 0 st1) as [[[b1 n1] st2]| | |] eqn:HL; try discriminate.
      intros [= <- <-] HI. eapply Read_loop_Inv; [exact HL|].
      eapply waitForData_Inv; eauto.
Qed.

(** [Read] returns or blocks; it neither panics nor runs out of fuel. *)
Lemma Read_total (c : selectCase) (b : list byte) (st : State) :
  Read c b st = Blocked \/ exists r st', Read c b st = Done (r, st').
Proof.
  assert (HL : forall st0, (exists x, extra (stream st0) = Some x) \/ True ->
             exists r st', Read_loop (length (dataIn (stream st0)) + 3) b 0 st0 = Done (r, st')).
  { intros st0 _.
    destruct (Read_loop_returns (length (dataIn (stream st0)) + 3) b 0 st0)
      as (b' & n' & st' & H & _); [|eauto].
    unfold Read_need. repeat case_match; lia. }
  unfold Read. munfold.
  destruct (reset (stream st)); [right; eauto|].
  destruct (extra (stream st)) as [x|] eqn:Hex.
  - destruct (HL st) as (r & st' & H); [auto|]. rewrite H. destruct r. right. eauto.
  - destruct c as [| |now]; unfold waitForData, recvDataIn; munfold.
    + destruct (reset (stream st)); [|left; reflexivity].
      rewrite returnBuffers_run. right. eauto.
    + destruct (dataIn (stream st)) as [|r0 q] eqn:Hq.
      * destruct (dataInClosed (stream st)); [right; eauto|left; reflexivity].
      * cbn [stream mp pool].
        match goal with |- context [Read_loop ?f b 0 ?s1] =>
          destruct (HL s1) as (r & st' & H); [auto|] end.
        simpl in H |- *. rewrite H. destruct r. right. eauto.
    + destruct (deadline_ready _ now); [right; eauto|left; reflexivity].
Qed.

(** The write path, the closing operations and the deadline setters return
    and leave the buffers alone. *)
Lemma submit_all_bufs (cs : list (list byte)) :
  forall (w : nat) (st : State),
    exists r st', submit_all cs w st = Done (r, st') /\ bufs st' = bufs st.
Proof.
  induction cs as [|c cs IH]; intros w st; [do 2 eexists; split; reflexivity|].
  cbn [submit_all]. unfold mbind, M_bind, bind.
  destruct (isClosed (stream st)) eqn:Hcl.
  - rewrite write_closed by exact Hcl. do 2 eexists; split; reflexivity.
  - rewrite write_open by exact Hcl.
    destruct (next_answer st); [do 2 eexists; split; reflexivity|].
    destruct (IH (w + length c)%nat (after_sends [message_call (stream st) None c] st))
      as (r & st' & H & Hb).
    rewrite H. exists r, st'. split; [reflexivity|]. rewrite Hb. reflexivity.
Qed.

Lemma Write_bufs (MaxMessageSize : Z) (b : list byte) (st : State) :
  0 < MaxMessageSize ->
  exists r st', Write MaxMessageSize b st = Done (r, st') /\ bufs st' = bufs st.
Proof.
  intros Hpos. unfold Write. rewrite Write_loop_submit by (try exact Hpos; lia).
  apply submit_all_bufs.
Qed.

Lemma Close_bufs (R : Z) (st : State) :
  exists r st', Close R st = Done (r, st') /\ bufs st' = bufs st.
Proof.
  unfold Close, sendMsg, doCloseLocal, cancelDeadlines, deleteChannel, mpClose, isShutdown.
  mrun.
  destruct (isClosed (stream st)); [do 2 eexists; split; reflexivity|].
  destruct (closedRemote (stream st)); simpl;
    destruct (bool_decide _ && negb (shutdown (mp st))); simpl;
    try (do 2 eexists; split; reflexivity);
    destruct (decide _); do 2 eexists; split; reflexivity.
Qed.

Lemma Reset_bufs (st : State) :
  exists r st', Reset st = Done (r, st') /\ bufs st' = bufs st.
Proof.
  unfold Reset, doCloseLocal, cancelDeadlines, go_sendResetMsg, deleteChannel. mrun.
  destruct (closedRemote (stream st) && isClosed (stream st));
    [do 2 eexists; split; reflexivity|].
  destruct (reset (stream st)); do 2 eexists; split; reflexivity.
Qed.

Lemma SetDeadline_bufs (t : Z) (st : State) :
  (exists r st', SetDeadline t st = Done (r, st') /\ bufs st' = bufs st) /\
  (exists r st', SetReadDeadline t st = Done (r, st') /\ bufs st' = bufs st) /\
  (exists r st', SetWriteDeadline t st = Done (r, st') /\ bufs st' = bufs st).
Proof.
  unfold SetDeadline, SetReadDeadline, SetWriteDeadline, isClosed. mrun.
  destruct st as [s m p]. destruct s as [i nm q qc ex eb rd wd cr rs cl]; simpl.
  destruct cr, cl; simpl; repeat split; do 2 eexists; split; reflexivity.
Qed.

(** One operation keeps the invariant; it returns or blocks. *)
Lemma exec_Inv (MaxMessageSize ResetStreamTimeout : Z) (o : Op) (st : State) :
  0 < MaxMessageSize -> Inv st ->
  exec MaxMessageSize ResetStreamTimeout o st = Blocked \/
  exists st', exec MaxMessageSize ResetStreamTimeout o st = Done (tt, st') /\ Inv st'.
Proof.
  intros Hpos HI.
  destruct o as [c b|b| | |t|t|t| |c|]; cbn [exec]; unfold mbind, M_bind, bind, ret.
  - destruct (Read_total c b st) as [H|(r & st' & H)]; rewrite H; [left; reflexivity|].
    right. eexists. split; [reflexivity|]. eapply Read_Inv; eauto.
  - destruct (Write_bufs MaxMessageSize b st Hpos) as (r & st' & H & Hb). rewrite H.
    right. eexists. split; [reflexivity|]. eapply Inv_bufs; eauto.
  - destruct (Close_bufs ResetStreamTimeout st) as (r & st' & H & Hb). rewrite H.
    right. eexists. split; [reflexivity|]. eapply Inv_bufs; eauto.
  - destruct (Reset_bufs st) as (r & st' & H & Hb). rewrite H.
    right. eexists. split; [reflexivity|]. eapply Inv_bufs; eauto.
  - destruct (SetDeadline_bufs t st) as ((r & st' & H & Hb) & _). rewrite H.
    right. eexists. split; [reflexivity|]. eapply Inv_bufs; eauto.
  - destruct (SetDeadline_bufs t st) as (_ & (r & st' & H & Hb) & _). rewrite H.
    right. eexists. split; [reflexivity|]. eapply Inv_bufs; eauto.
  - destruct (SetDeadline_bufs t st) as (_ & _ & (r & st' & H & Hb)). rewrite H.
    right. eexists. split; [reflexivity|]. eapply Inv_bufs; eauto.
  - right. apply preloadData_Inv. exact HI.
  - destruct (waitForData_total c st) as [H|(r & st' & H)]; rewrite H; [left; reflexivity|].
    right. eexists. split; [reflexivity|]. eapply waitForData_Inv; eauto.
  - right. rewrite returnBuffers_run. eexists. split; [reflexivity|].
    apply returnBuffers_Inv. exact HI.
Qed.

(** C8. Along any sequence of stream operations that starts where [exbuf]
    is nil exactly when [extra] is, [extra] is a slice of [exbuf], and the
    held buffers are distinct and not in the pool, the same holds after
    every operation, and no buffer has been handed to the pool twice: what
    [Read] releases on full consumption is no longer held when
    [returnBuffers] runs. No operation panics or loops. *)
Theorem buffer_invariant_preserved
    (MaxMessageSize ResetStreamTimeout : Z) (os : list Op) (st : State) :
  0 < MaxMessageSize -> Inv st ->
  match execs MaxMessageSize ResetStreamTimeout os st with
  | Done (_, st') =>
      slices_ok (stream st') /\
      NoDup (held (stream st') ++ pool st') /\
      NoDup (pool st')
  | Blocked => True
  | Panic => False
  | OutOfFuel => False
  end.
Proof.
  intros Hpos. revert st. induction os as [|o os IH]; intros st HI.
  - simpl. destruct HI as [Hs Hnd]. split; [exact Hs|]. split; [exact Hnd|].
    apply list.NoDup_app in Hnd as (_ & _ & Hnd). exact Hnd.
  - cbn [execs]. unfold mbind, M_bind, bind.
    destruct (exec_Inv MaxMessageSize ResetStreamTimeout o st Hpos HI)
      as [H|(st' & H & HI')]; rewrite H; [exact I|].
    apply IH. exact HI'.
Qed.

Lemma exBufferedState_Inv : Inv exBufferedState.
Proof.
  split.
  - split; simpl.
    + split; discriminate.
    + intros x e [= <-] [= <-]. split; [reflexivity|].
      exists 1%nat. simpl. repeat split; lia.
  - simpl. apply NoDup_ListNoDup. repeat constructor; simpl; lia.
Qed.

(** Read three bytes (buffers 7 and 8 are used up), reset, let a waiting
    reader return the buffers, return them again: buffers 7, 8 and 9 reach
    the pool once each. *)
Lemma buffer_invariant_preserved_witness :
  exists st',
    execs 16 5000
      [OpRead SelData [x00; x00; x00]; OpReset; OpWaitForData SelReset; OpReturnBuffers]
      exBufferedState = Done (tt, st') /\
    pool st' = [7; 8; 9]%nat /\
    NoDup (held (stream st') ++ pool st').
Proof.
  pose proof (buffer_invariant_preserved 16 5000
                [OpRead SelData [x00; x00; x00]; OpReset; OpWaitForData SelReset;
                 OpReturnBuffers]
                exBufferedState ltac:(lia) exBufferedState_Inv) as H.
  remember (execs 16 5000
              [OpRead SelData [x00; x00; x00]; OpReset; OpWaitForData SelReset;
               OpReturnBuffers] exBufferedState) as r eqn:He.
  vm_compute in He. subst r. destruct H as (_ & Hnd & _).
  eexists. split; [vm_compute; reflexivity|]. split; [reflexivity|exact Hnd].
Defined.

(** * Further properties *)

(** ** Decoding a header *)

Lemma header_value (n tag : Z) (ini : bool) :
  0 <= n < 2 ^ 61 -> 1 <= tag <= 7 ->
  header (mkStreamID n ini) tag = 8 * n + tag - (if ini then 0 else 1).
Proof.
  intros Hn Ht. unfold header. cbn [id initiator].
  assert (Hsh : u64 (Z.shiftl n 3) = Z.shiftl n 3).
  { apply u64_small. unfold is_u64. rewrite Z.shiftl_mul_pow2 by lia. lia. }
  rewrite Hsh, lor_shift3 by lia.
  destruct ini; cbn [negb]; [lia|].
  apply u64_small. unfold is_u64. lia.
Qed.

(** X1. For a 61-bit number and any tag from 1 to 7 the receiver recovers
    the number as the header shifted right by 3, whoever sent it; the low 3
    bits are the tag for the initiator and the tag minus one otherwise, so
    for the even tags the code sends the lowest bit tells whether the sender
    opened the stream. *)
Theorem header_decode (n tag : Z) (ini : bool) :
  0 <= n < 2 ^ 61 -> 1 <= tag <= 7 ->
  let h := header (mkStreamID n ini) tag in
  is_u64 h /\
  Z.shiftr h 3 = n /\
  Z.land h 7 = tag - (if ini then 0 else 1) /\
  (Z.even tag = true -> Z.odd h = negb ini).
Proof.
  intros Hn Ht h. unfold h. rewrite header_value by assumption.
  set (d := if ini then 0 else 1).
  assert (Hd : 0 <= tag - d <= 7) by (unfold d; destruct ini; lia).
  replace (8 * n + tag - d) with ((tag - d) + n * 8) by lia.
  split; [unfold is_u64; lia|].
  split; [|split].
  - rewrite Z.shiftr_div_pow2 by lia. change (2 ^ 3) with 8.
    rewrite Z.div_add by lia. rewrite Z.div_small by lia. lia.
  - change 7 with (Z.ones 3). rewrite Z.land_ones by lia. change (2 ^ 3) with 8.
    rewrite Z.mod_add by lia. apply Z.mod_small. lia.
  - intros Hev.
    replace (tag - d + n * 8) with ((tag - d) + 2 * (4 * n)) by lia.
    rewrite Z.odd_add_mul_2.
    assert (Htag : tag = 2 \/ tag = 4 \/ tag = 6).
    { assert (H7 : tag = 1 \/ tag = 2 \/ tag = 3 \/ tag = 4 \/ tag = 5 \/ tag = 6 \/ tag = 7)
        by lia.
      destruct H7 as [->|[->|[->|[->|[->|[->| ->]]]]]]; simpl in Hev;
        try discriminate; auto. }
    unfold d. destruct Htag as [->|[-> | ->]]; destruct ini; reflexivity.
Qed.

Lemma header_decode_witness :
  Z.shiftr (header (mkStreamID 9 false) closeTag) 3 = 9 /\
  Z.odd (header (mkStreamID 9 false) closeTag) = true.
Proof.
  destruct (header_decode 9 closeTag false ltac:(lia) ltac:(unfold closeTag; lia))
    as (_ & Hs & _ & Hp).
  split; [exact Hs|]. exact (Hp eq_refl).
Defined.

(** X2. Headers do not collide: for 61-bit numbers and the tags the code
    sends (2, 4 and 6), two headers are equal only for the same stream
    identifier and the same tag. *)
Theorem header_injective (s1 s2 : streamID) (t1 t2 : Z) :
  0 <= id s1 < 2 ^ 61 -> 0 <= id s2 < 2 ^ 61 ->
  (t1 = messageTag \/ t1 = closeTag \/ t1 = resetTag) ->
  (t2 = messageTag \/ t2 = closeTag \/ t2 = resetTag) ->
  header s1 t1 = header s2 t2 -> s1 = s2 /\ t1 = t2.
Proof.
  destruct s1 as [n1 i1], s2 as [n2 i2]. cbn [id].
  intros H1 H2 Ht1 Ht2.
  assert (Hr1 : 1 <= t1 <= 7) by (unfold messageTag, closeTag, resetTag in Ht1; lia).
  assert (Hr2 : 1 <= t2 <= 7) by (unfold messageTag, closeTag, resetTag in Ht2; lia).
  rewrite !header_value by assumption.
  unfold messageTag, closeTag, resetTag in *. intros Heq.
  assert (n1 = n2 /\ i1 = i2 /\ t1 = t2) as (-> & -> & ->).
  { destruct i1, i2; lia. }
  split; reflexivity.
Qed.

Lemma header_injective_witness :
  header (mkStreamID 3 true) messageTag = 26 /\
  (mkStreamID 3 true = mkStreamID 3 true /\ messageTag = messageTag).
Proof.
  split; [reflexivity|].
  apply (header_injective (mkStreamID 3 true) (mkStreamID 3 true) messageTag messageTag);
    cbn [id]; auto; lia.
Defined.

(** ** What a reader is given *)

Lemma Read_advance_effect (x : buf) (read : nat) (st st1 : State) :
  extra (stream st) = Some x -> (read <= length (elems x))%nat ->
  Read_advance x read st = Done (tt, st1) ->
  pending (stream st1) = drop read (pending (stream st)) /\
  mp st1 = mp st /\ flags (stream st1) = flags (stream st) /\
  (Forall is_Some (dataIn (stream st)) ->
   Forall is_Some (dataIn (stream st1)) /\
   (extra (stream st1) = None -> dataIn (stream st1) = [])).
Proof.
  intros Hex Hread. rewrite Read_advance_run. intros [= <-].
  unfold pending. rewrite Hex. cbn [slice_bytes].
  destruct (read <? length (elems x))%nat eqn:Hlt.
  - cbn [stream mp extra dataIn with_extra slice_bytes reslice elems].
    rewrite drop_app_le by exact Hread.
    repeat split; try reflexivity; [tauto|discriminate].
  - apply Nat.ltb_ge in Hlt. assert (read = length (elems x)) as -> by lia.
    rewrite drop_app_length.
    destruct (dataIn (stream st)) as [|r q] eqn:Hq; cbn; rewrite ?Hq.
    + repeat split; try reflexivity; auto.
    + repeat split; try reflexivity.
      * inversion H; assumption.
      * intros ->. inversion H as [|? ? [y Hy] _]. discriminate.
Qed.

Lemma copy_into_shape (b : list byte) (n : nat) (src : list byte) :
  (n < length b)%nat ->
  let read := (copy_into b n src).1 in
  let b1 := (copy_into b n src).2 in
  take (n + read) b1 = take n b ++ take read src /\
  (forall m, (n + read <= m)%nat -> drop m b1 = drop m b).
Proof.
  intros Hn. unfold copy_into. cbn [fst snd].
  set (read := Nat.min (length b - n) (length src)).
  assert (Hlen : length (take n b ++ take read src) = (n + read)%nat).
  { rewrite length_app, !length_take. unfold read. lia. }
  rewrite (app_assoc (take n b)). split.
  - apply take_app_length'. symmetry. exact Hlen.
  - intros m Hm. rewrite drop_app_ge by lia. rewrite Hlen, drop_drop.
    f_equal. lia.
Qed.

(** The loop of [Read] hands out the next pending bytes, in order, and
    touches neither the session nor the flags of the stream. *)
Lemma Read_loop_bytes (fuel : nat) :
  forall (b : list byte) (n : nat) (st : State) b' n' st',
    (n <= length b)%nat ->
    Read_loop fuel b n st = Done ((b', n'), st') ->
    (n <= n' <= length b)%nat /\
    (n' - n <= length (pending (stream st)))%nat /\
    b' = take n b ++ take (n' - n) (pending (stream st)) ++ drop n' b /\
    pending (stream st') = drop (n' - n) (pending (stream st)) /\
    mp st' = mp st /\ flags (stream st') = flags (stream st).
Proof.
  induction fuel as [|fuel IH]; intros b n st b' n' st' Hnb; [discriminate|].
  rewrite Read_loop_S.
  assert (Hexit : Done (b, n, st) = Done (b', n', st') ->
            (n <= n' <= length b)%nat /\
            (n' - n <= length (pending (stream st)))%nat /\
            b' = take n b ++ take (n' - n) (pending (stream st)) ++ drop n' b /\
            pending (stream st') = drop (n' - n) (pending (stream st)) /\
            mp st' = mp st /\ flags (stream st') = flags (stream st)).
  { intros [= <- <- <-]. rewrite Nat.sub_diag, take_0, drop_0. cbn [app].
    rewrite take_drop. repeat split; lia. }
  destruct (extra (stream st)) as [x|] eqn:Hex; [|exact Hexit].
  destruct (n <? length b)%nat eqn:Hn; [|exact Hexit].
  clear Hexit. apply Nat.ltb_lt in Hn.
  destruct (copy_into_read b n (elems x) Hn) as (Hr1 & Hr2 & _ & _ & Hr5).
  destruct (copy_into_shape b n (elems x) Hn) as (Hs1 & Hs2).
  destruct (Read_advance x (copy_into b n (elems x)).1 st) as [[[] st1]| | |] eqn:Hadv;
    try discriminate.
  destruct (Read_advance_effect x _ st st1 Hex Hr1 Hadv) as (Hp1 & Hm1 & Hf1 & _).
  set (read := (copy_into b n (elems x)).1) in *.
  set (b1 := (copy_into b n (elems x)).2) in *.
  intros HL. apply IH in HL; [|lia].
  destruct HL as (Hn' & Hk & Hb' & Hp' & Hm' & Hf').
  rewrite Hr5 in Hn'.
  assert (HP : (read <= length (pending (stream st)))%nat).
  { unfold pending. rewrite Hex, length_app. cbn [slice_bytes]. lia. }
  rewrite Hp1, length_drop in Hk.
  split; [lia|]. split; [lia|].
  split; [|split; [|split; congruence]].
  - rewrite Hb', Hs1, Hs2, Hp1 by lia.
    replace (n' - n)%nat with (read + (n' - (n + read)))%nat by lia.
    rewrite <- take_take_drop, <- !app_assoc. do 2 f_equal.
    unfold pending. rewrite Hex. cbn [slice_bytes].
    rewrite take_app_le by exact Hr1. reflexivity.
  - rewrite Hp', Hp1, drop_drop. f_equal. lia.
Qed.

(** The state in which the loop of [Read] starts, after [waitForData]
    received a slice: nothing pending is lost. *)
Lemma recv_pending (s : Stream) (r : option buf) (q : list (option buf)) :
  extra s = None -> dataIn s = r :: q ->
  pending (with_exbuf r (with_extra r (with_dataIn q s))) = pending s.
Proof. intros He Hq. unfold pending. simpl. rewrite He, Hq. reflexivity. Qed.

(** X3. A [Read] that succeeds hands out the first [n] pending bytes of
    the stream, in order, into the first [n] places of [b] and leaves the
    rest of [b] alone; the bytes after them stay pending, so no byte is
    lost, repeated or reordered. *)
Theorem Read_delivers_in_order (c : selectCase) (b : list byte) (st : State) b' n st' :
  Read c b st = Done ((b', n, None), st') ->
  (n <= length b)%nat /\
  (n <= length (pending (stream st)))%nat /\
  b' = take n (pending (stream st)) ++ drop n b /\
  pending (stream st') = drop n (pending (stream st)).
Proof.
  unfold Read. munfold.
  destruct (reset (stream st)); [discriminate|].
  assert (Hloop : forall st1 fuel b1 n1 st2,
            pending (stream st1) = pending (stream st) ->
            Read_loop fuel b 0 st1 = Done ((b1, n1), st2) ->
            (n1 <= length b)%nat /\
            (n1 <= length (pending (stream st)))%nat /\
            b1 = take n1 (pending (stream st)) ++ drop n1 b /\
            pending (stream st2) = drop n1 (pending (stream st))).
  { intros st1 fuel b1 n1 st2 Hp HL.
    apply Read_loop_bytes in HL; [|lia].
    destruct HL as (H1 & H2 & H3 & H4 & _).
    rewrite Nat.sub_0_r, Hp in *. rewrite take_0 in H3. cbn [app] in H3.
    repeat split; [lia|assumption..]. }
  destruct (extra (stream st)) as [x|] eqn:Hex.
  - destruct (Read_loop _ b 0 st) as [[[b1 n1] st1]| | |] eqn:HL; try discriminate.
    intros [= <- <- <-]. eapply Hloop; [reflexivity|exact HL].
  - destruct c as [| |now]; unfold waitForData, recvDataIn; munfold.
    + destruct (reset (stream st)); [|discriminate].
      rewrite returnBuffers_run. discriminate.
    + destruct (dataIn (stream st)) as [|r q] eqn:Hq.
      { destruct (dataInClosed (stream st)); discriminate. }
      cbn [stream mp pool].
      match goal with |- context [Read_loop ?f b 0 ?s1] =>
        destruct (Read_loop f b 0 s1) as [[[b1 n1] st1]| | |] eqn:HL end;
        try discriminate.
      intros [= <- <- <-]. eapply Hloop; [|exact HL].
      cbn [stream]. apply recv_pending; assumption.
    + destruct (deadline_ready _ now); discriminate.
Qed.

(** Two bytes are asked for and five are pending: [x02; x03] are handed
    out and [x04; x05; x06] stay. *)
Lemma Read_delivers_in_order_witness :
  exists st',
    Read SelData [x00; x00] exBufferedState = Done (([x02; x03], 2%nat, None), st') /\
    pending (stream exBufferedState) = [x02; x03; x04; x05; x06] /\
    pending (stream st') = [x04; x05; x06].
Proof.
  assert (Hex : exists st', Read SelData [x00; x00] exBufferedState =
                            Done (([x02; x03], 2%nat, None), st'))
    by (eexists; vm_compute; reflexivity).
  destruct Hex as [st' H]. exists st'. split; [exact H|].
  split; [vm_compute; reflexivity|].
  destruct (Read_delivers_in_order _ _ _ _ _ _ H) as (_ & _ & _ & Hp).
  rewrite Hp. vm_compute. reflexivity.
Defined.

(** X4. A [Read] that returns an error returns no byte and leaves [b] as
    it is, and the error is [ErrReset], [EOF] or [errTimeout]. When the
    error is [EOF] or [errTimeout] the whole state is as before: a read that
    timed out or met the end of the queue has consumed nothing and can be
    repeated. (Nothing is said of the state after [ErrReset]: the reset
    case of [waitForData] returns the buffers first.) *)
Theorem Read_error_no_effect (c : selectCase) (b : list byte) (st : State) b' n e st' :
  Read c b st = Done ((b', n, Some e), st') ->
  b' = b /\ n = 0%nat /\
  (e = ErrReset \/ e = EOF \/ e = errTimeout) /\
  (e <> ErrReset -> st' = st).
Proof.
  unfold Read. munfold.
  destruct (reset (stream st)) eqn:Hrs; [intros [= <- <- <- <-]; repeat split; auto; congruence|].
  destruct (extra (stream st)) as [x|] eqn:Hex.
  - destruct (Read_loop _ b 0 st) as [[[b1 n1] st1]| | |]; discriminate.
  - destruct c as [| |now]; unfold waitForData, recvDataIn; munfold.
    + rewrite Hrs. discriminate.
    + destruct (dataIn (stream st)) as [|r q] eqn:Hq.
      * destruct (dataInClosed (stream st)); [|discriminate].
        intros [= <- <- <- <-]. repeat split; auto; congruence.
      * cbn [stream mp pool].
        match goal with |- context [Read_loop ?f b 0 ?s1] =>
          destruct (Read_loop f b 0 s1) as [[[b1 n1] st1]| | |] end; discriminate.
    + destruct (deadline_ready _ now); [|discriminate].
      intros [= <- <- <- <-]. repeat split; auto; congruence.
Qed.

(** A read deadline that is due: the timed-out [Read] changes nothing. *)
Lemma Read_error_no_effect_witness :
  let st := mkState (with_rDeadline (mkDeadline 50) exStream) exMux [] in
  exists st',
    Read (SelDeadline 60) [x00] st = Done (([x00], 0%nat, Some errTimeout), st') /\
    st' = st.
Proof.
  intros st.
  assert (Hex : exists st', Read (SelDeadline 60) [x00] st =
                            Done (([x00], 0%nat, Some errTimeout), st'))
    by (eexists; vm_compute; reflexivity).
  destruct Hex as [st' H]. exists st'. split; [exact H|].
  destruct (Read_error_no_effect _ _ _ _ _ _ _ H) as (_ & _ & _ & Hst).
  apply Hst. discriminate.
Defined.

(** While no nil slice is queued, the loop of [Read] stops only when [b] is
    full or nothing is pending. *)
Lemma Read_loop_fills (fuel : nat) :
  forall (b : list byte) (n : nat) (st : State) b' n' st',
    (n <= length b)%nat ->
    Forall is_Some (dataIn (stream st)) ->
    (extra (stream st) = None -> dataIn (stream st) = []) ->
    Read_loop fuel b n st = Done ((b', n'), st') ->
    n' = (n + Nat.min (length b - n) (length (pending (stream st))))%nat.
Proof.
  induction fuel as [|fuel IH]; intros b n st b' n' st' Hnb Hq Hnil; [discriminate|].
  rewrite Read_loop_S.
  destruct (extra (stream st)) as [x|] eqn:Hex.
  2:{ intros [= <- <- <-]. unfold pending. rewrite Hex, (Hnil eq_refl). simpl. lia. }
  destruct (n <? length b)%nat eqn:Hn.
  2:{ intros [= <- <- <-]. apply Nat.ltb_ge in Hn. lia. }
  apply Nat.ltb_lt in Hn.
  destruct (copy_into_read b n (elems x) Hn) as (Hr1 & Hr2 & _ & Hr4 & Hr5).
  destruct (Read_advance x (copy_into b n (elems x)).1 st) as [[[] st1]| | |] eqn:Hadv;
    try discriminate.
  destruct (Read_advance_effect x _ st st1 Hex Hr1 Hadv) as (Hp1 & _ & _ & Hq1).
  destruct (Hq1 Hq) as [Hq1a Hq1b].
  intros HL. apply IH in HL; [|lia|assumption..].
  assert (HP : length (pending (stream st)) =
               (length (elems x) + length (concat (map slice_bytes (dataIn (stream st)))))%nat).
  { unfold pending. rewrite Hex, length_app. reflexivity. }
  rewrite Hp1, length_drop, Hr5 in HL.
  assert (Hread : (copy_into b n (elems x)).1 = Nat.min (length b - n) (length (elems x)))
    by reflexivity.
  lia.
Qed.

(** X5. [Read] coalesces: while no nil slice is queued, a successful [Read]
    returns as many bytes as fit, the whole of [b] or all that is pending,
    whichever is less, across the queued slices. *)
Theorem Read_fills_buffer (c : selectCase) (b : list byte) (st : State) b' n st' :
  Forall is_Some (dataIn (stream st)) ->
  Read c b st = Done ((b', n, None), st') ->
  n = Nat.min (length b) (length (pending (stream st))).
Proof.
  intros Hq. unfold Read. munfold.
  destruct (reset (stream st)); [discriminate|].
  destruct (extra (stream st)) as [x|] eqn:Hex.
  - destruct (Read_loop _ b 0 st) as [[[b1 n1] st1]| | |] eqn:HL; try discriminate.
    intros [= <- <- <-]. apply Read_loop_fills in HL; [|lia|assumption|congruence].
    rewrite HL. lia.
  - destruct c as [| |now]; unfold waitForData, recvDataIn; munfold.
    + destruct (reset (stream st)); [|discriminate].
      rewrite returnBuffers_run. discriminate.
    + destruct (dataIn (stream st)) as [|r q] eqn:Hdq.
      { destruct (dataInClosed (stream st)); discriminate. }
      cbn [stream mp pool].
      match goal with |- context [Read_loop ?f b 0 ?s1] =>
        destruct (Read_loop f b 0 s1) as [[[b1 n1] st1]| | |] eqn:HL end;
        try discriminate.
      intros [= <- <- <-]. inversion Hq as [|? ? [y ->] Hq']; subst.
      apply Read_loop_fills in HL; [|lia|exact Hq'|discriminate].
      cbn [stream] in HL. rewrite recv_pending in HL by assumption.
      rewrite HL. lia.
    + destruct (deadline_ready _ now); discriminate.
Qed.

(** Four bytes are asked for: two come from the slice in [extra], one from
    the next slice and one from the slice after it. *)
Lemma Read_fills_buffer_witness :
  exists st',
    Read SelData [x00; x00; x00; x00] exBufferedState =
      Done (([x02; x03; x04; x05], 4%nat, None), st') /\
    4%nat = Nat.min 4 (length (pending (stream exBufferedState))).
Proof.
  assert (Hex : exists st', Read SelData [x00; x00; x00; x00] exBufferedState =
                            Done (([x02; x03; x04; x05], 4%nat, None), st'))
    by (eexists; vm_compute; reflexivity).
  destruct Hex as [st' H]. exists st'. split; [exact H|].
  assert (Hq : Forall is_Some (dataIn (stream exBufferedState)))
    by (repeat constructor; eexists; reflexivity).
  exact (Read_fills_buffer _ _ _ _ _ _ Hq H).
Defined.

Lemma Read_advance_conserve (x : buf) (read : nat) (st st1 : State) :
  slices_ok (stream st) -> extra (stream st) = Some x ->
  (read <= length (elems x))%nat ->
  Read_advance x read st = Done (tt, st1) ->
  slices_ok (stream st1) /\
  pool st1 ++ held (stream st1) = pool st ++ held (stream st).
Proof.
  intros [Hiff Hsub] Hex Hread. rewrite Read_advance_run. intros [= <-].
  destruct st as [s m p]. cbn [stream mp pool] in *.
  destruct (exbuf s) as [e|] eqn:He.
  2:{ destruct Hiff as [Hiff _]. rewrite Hiff in Hex by reflexivity. discriminate. }
  destruct (read <? length (elems x))%nat.
  - split.
    + split; simpl; rewrite He.
      * split; discriminate.
      * intros x' e' [= <-] [= <-]. apply subslice_reslice; [exact Hread|].
        apply Hsub; [exact Hex|reflexivity].
    + unfold held. simpl. rewrite He. reflexivity.
  - destruct (dataIn s) as [|r q] eqn:Hq.
    + split; [split; simpl; [tauto|discriminate]|].
      unfold held. simpl. rewrite He, Hq. simpl. rewrite app_nil_r. reflexivity.
    + split.
      * split; simpl; [tauto|]. intros x' e' -> [= ->]. apply subslice_refl.
      * unfold held. simpl. rewrite He, Hq. rewrite <- app_assoc.
        destruct r; reflexivity.
Qed.

Lemma Read_loop_conserve (fuel : nat) :
  forall (b : list byte) (n : nat) (st : State) r st',
    slices_ok (stream st) ->
    Read_loop fuel b n st = Done (r, st') ->
    slices_ok (stream st') /\
    pool st' ++ held (stream st') = pool st ++ held (stream st).
Proof.
  induction fuel as [|fuel IH]; intros b n st r st' Hok; [discriminate|].
  rewrite Read_loop_S.
  destruct (extra (stream st)) as [x|] eqn:Hex; [|intros [= <- <-]; auto].
  destruct (n <? length b)%nat eqn:Hn; [|intros [= <- <-]; auto].
  apply Nat.ltb_lt in Hn.
  destruct (copy_into_read b n (elems x) Hn) as (Hr1 & _).
  destruct (Read_advance x (copy_into b n (elems x)).1 st) as [[[] st1]| | |] eqn:Hadv;
    try discriminate.
  destruct (Read_advance_conserve x _ st st1 Hok Hex Hr1 Hadv) as [Hok1 Hc1].
  intros HL. destruct (IH _ _ _ _ _ Hok1 HL) as [Hok' Hc'].
  split; [exact Hok'|congruence].
Qed.

(** X6. [Read] loses no pool buffer: on a stream where [exbuf] is nil
    exactly when [extra] is, the buffers handed to the pool so far followed
    by the buffers still held are the same list before and after a [Read],
    so each buffer it drops from the stream is one it has released. *)
Theorem Read_conserves_buffers (c : selectCase) (b : list byte) (st : State) r st' :
  slices_ok (stream st) ->
  Read c b st = Done (r, st') ->
  slices_ok (stream st') /\
  pool st' ++ held (stream st') = pool st ++ held (stream st).
Proof.
  intros Hok. unfold Read. munfold.
  destruct (reset (stream st)); [intros [= <- <-]; auto|].
  destruct (extra (stream st)) as [x|] eqn:Hex.
  - destruct (Read_loop _ b 0 st) as [[[b1 n1] st1]| | |] eqn:HL; try discriminate.
    intros [= <- <-]. eapply Read_loop_conserve; eauto.
  - assert (Heb : exbuf (stream st) = None) by (apply Hok; exact Hex).
    destruct c as [| |now]; unfold waitForData, recvDataIn; munfold.
    + destruct (reset (stream st)); [|discriminate].
      rewrite returnBuffers_run. cbn [stream mp pool].
      intros [= <- <-]. cbn [stream pool]. split.
      * unfold drained. rewrite Heb. split; simpl; rewrite ?Heb, ?Hex; [tauto|].
        intros ? ? ?; congruence.
      * rewrite held_drained, app_nil_r. reflexivity.
    + destruct st as [s m p]. cbn [stream mp pool] in *.
      destruct (dataIn s) as [|r0 q] eqn:Hq.
      { destruct (dataInClosed s); [|discriminate]. intros [= <- <-]. auto. }
      match goal with |- context [Read_loop ?f b 0 ?s1] =>
        destruct (Read_loop f b 0 s1) as [[[b1 n1] st1]| | |] eqn:HL end;
        try discriminate.
      intros [= <- <-]. apply Read_loop_conserve in HL.
      * destruct HL as [H1 H2]. split; [exact H1|]. rewrite H2.
        unfold held. simpl. rewrite Heb, Hq. destruct r0; reflexivity.
      * split; simpl; [tauto|]. intros x' e' -> [= ->]. apply subslice_refl.
    + destruct (deadline_ready _ now); [|discriminate]. intros [= <- <-]. auto.
Qed.

(** Three bytes are read: buffers 7 and 8 reach the pool, buffer 9 is
    still held. *)
Lemma Read_conserves_buffers_witness :
  exists r st',
    Read SelData [x00; x00; x00] exBufferedState = Done (r, st') /\
    pool st' = [7; 8]%nat /\ held (stream st') = [9]%nat /\
    pool st' ++ held (stream st') = [7; 8; 9]%nat.
Proof.
  assert (Hex : exists r st',
            Read SelData [x00; x00; x00] exBufferedState = Done (r, st') /\
            pool st' = [7; 8]%nat /\ held (stream st') = [9]%nat)
    by (do 2 eexists; split; [vm_compute; reflexivity|split; vm_compute; reflexivity]).
  destruct Hex as (r & st' & H & Hp & Hh). exists r, st'.
  split; [exact H|]. split; [exact Hp|]. split; [exact Hh|].
  destruct (Read_conserves_buffers _ _ _ _ _ (proj1 exBufferedState_Inv) H) as [_ Hc].
  rewrite Hc. reflexivity.
Defined.

Lemma Read_frame_facts (c : selectCase) (b : list byte) (st : State) r st' :
  Read c b st = Done (r, st') ->
  mp st' = mp st /\ flags (stream st') = flags (stream st).
Proof.
  unfold Read. munfold.
  destruct (reset (stream st)); [intros [= <- <-]; auto|].
  destruct (extra (stream st)) as [x|] eqn:Hex.
  - destruct (Read_loop _ b 0 st) as [[[b1 n1] st1]| | |] eqn:HL; try discriminate.
    intros [= <- <-]. apply Read_loop_bytes in HL; [|lia]. tauto.
  - destruct c as [| |now]; unfold waitForData, recvDataIn; munfold.
    + destruct (reset (stream st)); [|discriminate].
      rewrite returnBuffers_run. intros [= <- <-]. split; [reflexivity|].
      unfold drained. destruct (exbuf (stream st)); reflexivity.
    + destruct (dataIn (stream st)) as [|r0 q] eqn:Hq.
      { destruct (dataInClosed (stream st)); [|discriminate]. intros [= <- <-]. auto. }
      cbn [stream mp pool].
      match goal with |- context [Read_loop ?f b 0 ?s1] =>
        destruct (Read_loop f b 0 s1) as [[[b1 n1] st1]| | |] eqn:HL end;
        try discriminate.
      intros [= <- <-]. apply Read_loop_bytes in HL; [|lia].
      destruct HL as (_ & _ & _ & _ & Hm & Hf). split; [exact Hm|]. rewrite Hf. reflexivity.
    + destruct (deadline_ready _ now); [|discriminate]. intros [= <- <-]. auto.
Qed.

(** X7. [Read] works on the read pipeline only: it calls nothing of the
    session (no frame is sent, the channel table and the shutdown state
    stay) and it leaves the deadlines and the closed and reset marks of the
    stream as they are. *)
Theorem Read_frame (c : selectCase) (b : list byte) (st : State) r st' :
  Read c b st = Done (r, st') ->
  mp st' = mp st /\ flags (stream st') = flags (stream st).
Proof. apply Read_frame_facts. Qed.

Lemma Read_frame_witness :
  exists r st',
    Read SelData [x00; x00; x00] exBufferedState = Done (r, st') /\
    mp st' = exMux /\ closedLocal (stream st') = false.
Proof.
  assert (Hex : exists r st', Read SelData [x00; x00; x00] exBufferedState = Done (r, st'))
    by (do 2 eexists; vm_compute; reflexivity).
  destruct Hex as (r & st' & H). exists r, st'. split; [exact H|].
  destruct (Read_frame _ _ _ _ _ H) as [Hm Hf]. split; [exact Hm|].
  unfold flags in Hf. injection Hf as _ _ _ _ _ _ _ Hcl. exact Hcl.
Defined.

(** ** Returning buffers, again *)

(** X8. [returnBuffers] hands each buffer the stream holds to the pool
    once, in order ([exbuf] first, then the queued slices, nil slices
    skipped), leaves the stream without buffers, and is idempotent: a
    second call releases nothing. *)
Theorem returnBuffers_idempotent (st : State) :
  exists st',
    returnBuffers st = Done (tt, st') /\
    pool st' = pool st ++ held (stream st) /\
    held (stream st') = [] /\ pending (stream st') = slice_bytes (extra (stream st')) /\
    dataIn (stream st') = [] /\ exbuf (stream st') = None /\
    mp st' = mp st /\ flags (stream st') = flags (stream st) /\
    returnBuffers st' = Done (tt, st').
Proof.
  exists (mkState (drained (stream st)) (mp st) (pool st ++ held (stream st))).
  assert (Hex : exbuf (drained (stream st)) = None).
  { unfold drained. destruct (exbuf (stream st)) eqn:He; simpl; [reflexivity|exact He]. }
  split; [apply returnBuffers_run|]. cbn [stream mp pool].
  split; [reflexivity|]. split; [apply held_drained|].
  split; [unfold pending, drained; simpl; rewrite app_nil_r; reflexivity|].
  split; [reflexivity|]. split; [exact Hex|]. split; [reflexivity|].
  split; [unfold drained; destruct (exbuf (stream st)); reflexivity|].
  rewrite returnBuffers_run. cbn [stream mp pool].
  rewrite held_drained, app_nil_r. do 3 f_equal.
  unfold drained at 1. rewrite Hex.
  unfold drained. destruct (exbuf (stream st)); reflexivity.
Qed.

(** ** What a writer is told *)

Lemma concat_take_prefix (cs : list (list byte)) (k : nat) :
  concat (take k cs) = take (length (concat (take k cs))) (concat cs).
Proof.
  rewrite <- (take_drop k cs) at 3. rewrite concat_app.
  symmetry. apply take_app_length'. reflexivity.
Qed.

Lemma chunks_take_full (m : nat) : (0 < m)%nat ->
  forall (k fuel : nat) (b : list byte),
    (k < length (chunks fuel m b))%nat ->
    length (concat (take k (chunks fuel m b))) = (k * m)%nat.
Proof.
  intros Hm k. induction k as [|k IH]; intros fuel b Hk; [reflexivity|].
  destruct fuel as [|fuel]; [simpl in Hk; lia|].
  destruct b as [|x b]; [simpl in Hk; lia|].
  assert (Hfull : length (take m (x :: b)) = m).
  { eapply (chunks_full m Hm (S fuel) (x :: b) 0%nat); [lia|reflexivity]. }
  cbn [chunks] in *. cbn [take concat]. rewrite length_app, Hfull.
  rewrite IH by (simpl in Hk; lia). lia.
Qed.

(** [submit_all] returns; it has counted the pieces that were accepted, and
    they are the accepted payloads of the log, in order. *)
Lemma submit_all_trace (cs : list (list byte)) :
  forall (w : nat) (st : State),
    exists k err calls,
      submit_all cs w st =
        Done ((w + length (concat (take k cs)), err)%nat, after_sends calls st) /\
      accepted_bytes calls = concat (take k cs) /\
      (k <= length cs)%nat /\ (err = None <-> k = length cs) /\
      message_calls (stream st) calls.
Proof.
  induction cs as [|c cs IH]; intros w st.
  - exists 0%nat, None, []. rewrite after_sends_nil. simpl. rewrite Nat.add_0_r.
    repeat split; auto. constructor.
  - cbn [submit_all]. unfold mbind, M_bind, bind.
    destruct (isClosed (stream st)) eqn:Hcl.
    + rewrite write_closed by exact Hcl.
      exists 0%nat, (Some errClosedWrite), []. rewrite after_sends_nil. simpl.
      rewrite Nat.add_0_r. repeat split; try discriminate; try lia. constructor.
    + rewrite write_open by exact Hcl.
      destruct (next_answer st) as [e|] eqn:Hans.
      * exists 0%nat, (Some (write_error e)), [message_call (stream st) (Some e) c].
        simpl. rewrite Nat.add_0_r. repeat split; try discriminate; try lia.
        repeat constructor.
      * destruct (IH (w + length c)%nat (after_sends [message_call (stream st) None c] st))
          as (k & err & calls & H & Hacc & Hk & Herr & Hcalls).
        exists (S k), err, (message_call (stream st) None c :: calls).
        rewrite H, (after_sends_cons _ calls). cbn [take concat].
        rewrite length_app. split; [do 3 f_equal; lia|].
        split; [unfold accepted_bytes in *; simpl; rewrite Hacc; reflexivity|].
        split; [simpl; lia|].
        split; [simpl; split; intros Hx; [apply Herr in Hx; lia|apply Herr; lia]|].
        constructor; [split; reflexivity|exact Hcalls].
Qed.

(** X9. The count of [Write] is truthful, whatever the send path answers:
    [Write] returns, the payloads the send path accepted are, in order,
    exactly the first [n] bytes of [b], the error is nil exactly when [n] is
    [len(b)], a partial count is a whole number of full frames, and every
    call carried the stream's Message header and write deadline. Neither
    the stream nor the pool nor the channel table changes. *)
Theorem Write_count_truthful (MaxMessageSize : Z) (b : list byte) (st : State) :
  0 < MaxMessageSize ->
  exists n err calls,
    Write MaxMessageSize b st = Done ((n, err), after_sends calls st) /\
    accepted_bytes calls = take n b /\
    (n <= length b)%nat /\
    (err = None <-> n = length b) /\
    (err <> None -> Z.of_nat n mod MaxMessageSize = 0) /\
    message_calls (stream st) calls.
Proof.
  intros Hpos.
  set (m := Z.to_nat MaxMessageSize).
  assert (Hm : (0 < m)%nat) by (unfold m; lia).
  pose (cs := chunks (length b) m b).
  assert (Hcat : concat cs = b) by (apply chunks_concat; [exact Hm|lia]).
  assert (HW : Write MaxMessageSize b st = submit_all cs 0 st).
  { unfold Write. rewrite Write_loop_submit by (try exact Hpos; lia).
    rewrite Nat.sub_0_r, drop_0. reflexivity. }
  assert (Hfull : forall k, (k < length cs)%nat ->
                            length (concat (take k cs)) = (k * m)%nat)
    by (intros k Hk; apply chunks_take_full; assumption).
  assert (Hbd : Forall (fun c => (0 < length c <= m)%nat) cs)
    by (apply chunks_bounded; exact Hm).
  clearbody cs.
  destruct (submit_all_trace cs 0 st) as (k & err & calls & H & Hacc & Hk & Herr & Hcalls).
  exists (length (concat (take k cs))), err, calls.
  split; [rewrite HW; exact H|].
  assert (Hpre : concat (take k cs) = take (length (concat (take k cs))) b).
  { rewrite <- Hcat. apply concat_take_prefix. }
  split; [congruence|].
  assert (Hle : (length (concat (take k cs)) <= length b)%nat).
  { rewrite Hpre at 1. rewrite length_take. lia. }
  split; [exact Hle|].
  assert (Hlt : (k < length cs)%nat ->
                (length (concat (take k cs)) < length b)%nat).
  { intros Hklt. rewrite <- Hcat. rewrite <- (take_drop k cs) at 2.
    rewrite concat_app, length_app.
    destruct (drop k cs) as [|c r] eqn:Hd.
    - apply (f_equal length) in Hd. rewrite length_drop in Hd. simpl in Hd. lia.
    - assert (Hc : (0 < length c <= m)%nat).
      { assert (HF : Forall (fun c => (0 < length c <= m)%nat) (drop k cs))
          by (apply Forall_drop; exact Hbd).
        rewrite Hd in HF. inversion HF; assumption. }
      simpl. rewrite length_app. lia. }
  split; [|split; [|exact Hcalls]].
  - rewrite Herr. split.
    + intros ->. rewrite take_ge by lia. congruence.
    + intros Hn. destruct (Nat.eq_dec k (length cs)) as [|Hne]; [assumption|].
      specialize (Hlt ltac:(lia)). lia.
  - intros Hne. assert (Hklt : (k < length cs)%nat).
    { destruct (Nat.eq_dec k (length cs)) as [Heq|]; [|lia].
      apply Herr in Heq. contradiction. }
    rewrite (Hfull k Hklt).
    rewrite Nat2Z.inj_mul. unfold m. rewrite Z2Nat.id by lia.
    apply Z.mod_mul. lia.
Qed.

(** Fifty bytes, [MaxMessageSize] 16, the third frame is refused: 32 bytes
    are reported and 32 bytes were accepted. *)
Lemma Write_count_truthful_witness :
  let st := mkState exStream
              (mkMultiplex ConnPlain ∅ false [] [] [None; None; Some errTimeout]) [] in
  exists st',
    Write 16 (replicate 50 x00) st = Done ((32%nat, Some errTimeout), st') /\
    exists n err calls,
      Write 16 (replicate 50 x00) st = Done ((n, err), after_sends calls st) /\
      accepted_bytes calls = take n (replicate 50 x00).
Proof.
  intros st. eexists. split; [vm_compute; reflexivity|].
  destruct (Write_count_truthful 16 (replicate 50 x00) st ltac:(lia))
    as (n & err & calls & H & Hacc & _).
  exists n, err, calls. split; [exact H|exact Hacc].
Defined.

(** With [MaxMessageSize] zero and a send path that accepts everything the
    loop of [Write] goes on for ever on an open stream. *)
Lemma Write_loop_zero_diverges (b : list byte) : b <> [] ->
  forall (fuel : nat) (st : State),
    isClosed (stream st) = false -> sendScript (mp st) = [] ->
    Write_loop 0 fuel b 0 st = OutOfFuel.
Proof.
  intros Hb. induction fuel as [|fuel IH]; intros st Hcl Hsc; [reflexivity|].
  cbn [Write_loop].
  assert (Hlen : (0 <? length b)%nat = true).
  { destruct b; [congruence|reflexivity]. }
  rewrite Hlen.
  assert (Hgt : (Z.of_nat (length b) - Z.of_nat 0 >? 0) = true).
  { destruct b; [congruence|]. simpl length. apply Z.gtb_lt. lia. }
  rewrite Hgt. cbn [Z.ltb Z.compare Z.to_nat take]. unfold mbind, M_bind, bind.
  rewrite write_open by exact Hcl.
  unfold next_answer. rewrite Hsc. cbn [length Nat.add].
  apply IH.
  - exact Hcl.
  - simpl. rewrite Hsc. reflexivity.
Qed.

(** X10. [Write] relies on a positive [MaxMessageSize]. With a negative
    one, a [Write] of a non-empty [b] panics on its first slice expression;
    with zero, it returns the closed-stream error on a locally closed stream
    and otherwise never returns while the send path accepts its empty
    frames. *)
Theorem Write_nonpositive_max (MaxMessageSize : Z) (b : list byte) (st : State) :
  b <> [] ->
  (MaxMessageSize < 0 -> Write MaxMessageSize b st = Panic) /\
  (MaxMessageSize = 0 -> isClosed (stream st) = true ->
     Write MaxMessageSize b st = Done ((0%nat, Some errClosedWrite), st)) /\
  (MaxMessageSize = 0 -> isClosed (stream st) = false -> sendScript (mp st) = [] ->
     forall fuel, Write_loop MaxMessageSize fuel b 0 st = OutOfFuel).
Proof.
  intros Hb.
  assert (Hlen : (0 <? length b)%nat = true).
  { destruct b; [congruence|reflexivity]. }
  assert (Hpos : 0 < Z.of_nat (length b)).
  { destruct b; [congruence|]. simpl length. lia. }
  split; [|split].
  - intros Hneg. unfold Write. cbn [Write_loop]. rewrite Hlen.
    assert (Hgt : (Z.of_nat (length b) - Z.of_nat 0 >? MaxMessageSize) = true)
      by (apply Z.gtb_lt; lia).
    rewrite Hgt. assert (Hlt : (MaxMessageSize <? 0) = true) by (apply Z.ltb_lt; lia).
    rewrite Hlt. reflexivity.
  - intros -> Hcl. unfold Write. cbn [Write_loop]. rewrite Hlen.
    assert (Hgt : (Z.of_nat (length b) - Z.of_nat 0 >? 0) = true)
      by (apply Z.gtb_lt; lia).
    rewrite Hgt. cbn [Z.ltb Z.compare]. unfold mbind, M_bind, bind.
    rewrite write_closed by exact Hcl. reflexivity.
  - intros -> Hcl Hsc fuel. apply Write_loop_zero_diverges; assumption.
Qed.

Lemma Write_nonpositive_max_witness :
  Write (-1) [x01] exState = Panic /\
  Write_loop 0 1000 [x01] 0 exState = OutOfFuel.
Proof.
  destruct (Write_nonpositive_max (-1) [x01] exState ltac:(discriminate)) as [H1 _].
  destruct (Write_nonpositive_max 0 [x01] exState ltac:(discriminate)) as (_ & _ & H3).
  split; [apply H1; lia|].
  apply H3; reflexivity.
Defined.

(** ** Closing and resetting, then going on *)

Lemma Write_closed (MaxMessageSize : Z) (b : list byte) (st : State) :
  0 < MaxMessageSize -> b <> [] -> isClosed (stream st) = true ->
  Write MaxMessageSize b st = Done ((0%nat, Some errClosedWrite), st).
Proof.
  intros Hpos Hb Hcl. unfold Write. cbn [Write_loop].
  assert (Hlen : (0 <? length b)%nat = true).
  { destruct b; [congruence|reflexivity]. }
  rewrite Hlen.
  destruct (_ >? MaxMessageSize) eqn:Hgt.
  - assert (Hlt : (MaxMessageSize <? 0) = false) by (apply Z.ltb_ge; lia).
    rewrite Hlt. unfold mbind, M_bind, bind.
    rewrite write_closed by exact Hcl. reflexivity.
  - assert (Hlt : (Z.of_nat (length b) - Z.of_nat 0 <? 0) = false) by (apply Z.ltb_ge; lia).
    rewrite Hlt. unfold mbind, M_bind, bind.
    rewrite write_closed by exact Hcl. reflexivity.
Qed.

(** [Close] returns, with the local side closed and the buffers as they
    were. *)
Lemma Close_closes (R : Z) (st : State) :
  exists err st',
    Close R st = Done (err, st') /\ isClosed (stream st') = true /\
    err = (if isClosed (stream st) then None else next_answer st) /\
    bufs st' = bufs st.
Proof.
  unfold Close, sendMsg, doCloseLocal, cancelDeadlines, deleteChannel, mpClose,
    isShutdown, next_answer, isClosed.
  mrun.
  destruct (closedLocal (stream st)) eqn:Hcl;
    [do 2 eexists; split; [reflexivity|]; simpl; auto|].
  destruct (closedRemote (stream st)); simpl;
    destruct (bool_decide _ && negb (shutdown (mp st))); simpl;
    try (do 2 eexists; split; [reflexivity|]; simpl; auto);
    destruct (decide _); do 2 eexists; (split; [reflexivity|]); simpl; auto.
Qed.

(** X11. After [Close], whatever the send path answered and even when the
    session had to be shut down, the local side is closed: a [Write] of a
    non-empty [b] answers the closed-stream error without calling the send
    path, while a [Write] of nothing still answers 0 and nil. [Close]
    itself returns what the send path answered, or nil when the stream was
    closed already. *)
Theorem Close_then_Write (R MaxMessageSize : Z) (b : list byte) (st : State) :
  0 < MaxMessageSize -> b <> [] ->
  exists err st1,
    Close R st = Done (err, st1) /\
    err = (if isClosed (stream st) then None else next_answer st) /\
    isClosed (stream st1) = true /\
    Write MaxMessageSize b st1 = Done ((0%nat, Some errClosedWrite), st1) /\
    Write MaxMessageSize [] st1 = Done ((0%nat, None), st1).
Proof.
  intros Hpos Hb.
  destruct (Close_closes R st) as (err & st1 & H & Hcl & Herr & _).
  exists err, st1. split; [exact H|]. split; [exact Herr|]. split; [exact Hcl|].
  split; [apply Write_closed; assumption|reflexivity].
Qed.

(** The send path refuses the Close frame of an open stream with a
    timeout. *)
Lemma Close_then_Write_witness :
  let st := mkState exStream
              (mkMultiplex ConnPlain ∅ false [] [] [Some errTimeout]) [] in
  exists st1,
    Close 5000 st = Done (Some errTimeout, st1) /\
    Write 16 [x01] st1 = Done ((0%nat, Some errClosedWrite), st1).
Proof.
  intros st.
  destruct (Close_then_Write 5000 16 [x01] st ltac:(lia) ltac:(discriminate))
    as (err & st1 & H & Herr & _ & HW & _).
  exists st1. split; [|exact HW].
  rewrite H, Herr. reflexivity.
Defined.

(** X12. After [Reset] on a stream whose reset signal had not fired, the
    stream is closed on both sides for good: every deadline setter answers
    [errStreamClosed] and changes nothing, a [Write] of a non-empty [b]
    answers the closed-stream error, and another [Reset] is a no-op. *)
Theorem after_Reset_rejects (st : State) :
  reset (stream st) = false ->
  exists st',
    Reset st = Done (None, st') /\
    (forall t, SetDeadline t st' = Done (Some errStreamClosed, st') /\
               SetReadDeadline t st' = Done (Some errStreamClosed, st') /\
               SetWriteDeadline t st' = Done (Some errStreamClosed, st')) /\
    (forall M b, 0 < M -> b <> [] ->
                 Write M b st' = Done ((0%nat, Some errClosedWrite), st')) /\
    Reset st' = Done (None, st').
Proof.
  intros Hrs.
  assert (Hex : exists st', Reset st = Done (None, st') /\
                 closedRemote (stream st') = true /\ closedLocal (stream st') = true).
  { unfold Reset, doCloseLocal, cancelDeadlines, go_sendResetMsg, deleteChannel, isClosed.
    mrun. rewrite Hrs.
    destruct (closedRemote (stream st)) eqn:Hcr, (closedLocal (stream st)) eqn:Hcl; simpl;
      eexists; (split; [reflexivity|]); simpl; auto. }
  destruct Hex as (st' & H & Hcr & Hcl). exists st'.
  split; [exact H|]. split; [|split].
  - intros t. unfold SetDeadline, SetReadDeadline, SetWriteDeadline, isClosed. munfold.
    rewrite Hcr, Hcl. repeat split; reflexivity.
  - intros M b HM Hb. apply Write_closed; assumption.
  - unfold Reset, isClosed. munfold. rewrite Hcr, Hcl. reflexivity.
Qed.

Lemma after_Reset_rejects_witness :
  exists st',
    Reset exBufferedState = Done (None, st') /\
    SetReadDeadline 100 st' = Done (Some errStreamClosed, st').
Proof.
  destruct (after_Reset_rejects exBufferedState eq_refl) as (st' & H & Hset & _).
  exists st'. split; [exact H|]. apply Hset.
Defined.

(** X13. The first [Close] of a stream that is open locally, when the send
    path takes the frame or the session is shut down already: the Close
    frame is submitted once, with the [ResetStreamTimeout] bound, the answer
    of the send path is returned, and the local side is closed whatever the
    answer. When the remote side was closed before, both deadlines are
    cleared and the stream's own entry leaves the channel table; otherwise
    deadlines and table stay. Buffers, reset mark and remote mark stay. *)
Theorem Close_open_stream (R : Z) (st : State) :
  isClosed (stream st) = false ->
  next_answer st = None \/ shutdown (mp st) = true ->
  exists st',
    Close R st = Done (next_answer st, st') /\
    closedLocal (stream st') = true /\
    (closedRemote (stream st'), reset (stream st'), bufs st') =
    (closedRemote (stream st), reset (stream st), bufs st) /\
    sendLog (mp st') =
      sendLog (mp st) ++
      [mkSendCall (DoneTimeout R) (header (sid (stream st)) closeTag) [] (next_answer st)] /\
    shutdown (mp st') = shutdown (mp st) /\
    (if closedRemote (stream st) then
       channels (mp st') = delete (sid (stream st)) (channels (mp st)) /\
       rDeadline (stream st') = mkDeadline timeZero /\
       wDeadline (stream st') = mkDeadline timeZero
     else
       channels (mp st') = channels (mp st) /\
       rDeadline (stream st') = rDeadline (stream st) /\
       wDeadline (stream st') = wDeadline (stream st)).
Proof.
  intros Hcl Hok.
  assert (Hesc : bool_decide (next_answer st <> None) && negb (isShutdown (mp st)) = false).
  { unfold isShutdown. destruct Hok as [-> | ->].
    - reflexivity.
    - apply andb_false_r. }
  unfold Close, sendMsg, doCloseLocal, cancelDeadlines, deleteChannel. mrun.
  rewrite Hcl. fold (next_answer st). unfold isShutdown in *. simpl.
  destruct (closedRemote (stream st)) eqn:Hcr; simpl; rewrite Hesc; simpl;
    (eexists; split; [reflexivity|]); simpl; rewrite ?Hcr; repeat split; reflexivity.
Qed.

(** Both peers close: the second close, on the side whose remote mark is
    set, removes the entry of the stream. *)
Lemma Close_open_stream_witness :
  let st := mkState (with_closedRemote true exStream) exMux [] in
  exists st',
    Close 5000 st = Done (None, st') /\
    channels (mp st') = delete exID (channels exMux) /\
    closedLocal (stream st') = true.
Proof.
  intros st.
  destruct (Close_open_stream 5000 st eq_refl (or_introl eq_refl))
    as (st' & H & Hcl & _ & _ & _ & Hch & _).
  exists st'. split; [exact H|]. split; [exact Hch|exact Hcl].
Defined.

(** ** Reading after a local close *)

Lemma Read_advance_lift (v : bool) (f : Multiplex -> Multiplex)
    (x : buf) (read : nat) (st : State) :
  Read_advance x read (lift_state (with_closedLocal v) f st) =
  res_map (lift_state (with_closedLocal v) f) (Read_advance x read st).
Proof.
  rewrite !Read_advance_run. unfold res_map, lift_state.
  destruct st as [s m p]. cbn [stream mp pool].
  destruct (read <? length (elems x))%nat; [reflexivity|].
  destruct s as [i nm q qc ex eb rd wd cr rs cl]. simpl.
  destruct q; reflexivity.
Qed.

Lemma Read_loop_lift (v : bool) (f : Multiplex -> Multiplex) (fuel : nat) :
  forall (b : list byte) (n : nat) (st : State),
    Read_loop fuel b n (lift_state (with_closedLocal v) f st) =
    res_map (lift_state (with_closedLocal v) f) (Read_loop fuel b n st).
Proof.
  induction fuel as [|fuel IH]; intros b n st; [reflexivity|].
  rewrite !Read_loop_S.
  replace (extra (stream (lift_state (with_closedLocal v) f st)))
    with (extra (stream st)) by reflexivity.
  destruct (extra (stream st)) as [x|]; [|reflexivity].
  destruct (n <? length b)%nat; [|reflexivity].
  rewrite Read_advance_lift.
  destruct (Read_advance x (copy_into b n (elems x)).1 st) as [[[] st1]| | |];
    try reflexivity.
  cbn [res_map]. apply IH.
Qed.

Lemma Read_lift (v : bool) (f : Multiplex -> Multiplex)
    (c : selectCase) (b : list byte) (st : State) :
  Read c b (lift_state (with_closedLocal v) f st) =
  res_map (lift_state (with_closedLocal v) f) (Read c b st).
Proof.
  unfold Read. munfold.
  replace (reset (stream (lift_state (with_closedLocal v) f st)))
    with (reset (stream st)) by reflexivity.
  replace (extra (stream (lift_state (with_closedLocal v) f st)))
    with (extra (stream st)) by reflexivity.
  replace (dataIn (stream (lift_state (with_closedLocal v) f st)))
    with (dataIn (stream st)) by reflexivity.
  destruct (reset (stream st)) eqn:Hrs; [reflexivity|].
  destruct (extra (stream st)) as [x|] eqn:Hex.
  - rewrite Read_loop_lift.
    destruct (Read_loop _ b 0 st) as [[[b1 n1] st1]| | |]; reflexivity.
  - destruct c as [| |now]; unfold waitForData, recvDataIn; munfold.
    + replace (reset (stream (lift_state (with_closedLocal v) f st)))
        with (reset (stream st)) by reflexivity.
      rewrite Hrs. reflexivity.
    + replace (dataIn (stream (lift_state (with_closedLocal v) f st)))
        with (dataIn (stream st)) by reflexivity.
      destruct (dataIn (stream st)) as [|r q] eqn:Hq.
      * replace (dataInClosed (stream (lift_state (with_closedLocal v) f st)))
          with (dataInClosed (stream st)) by reflexivity.
        destruct (dataInClosed (stream st)); reflexivity.
      * cbn [stream mp pool lift_state].
        match goal with |- context [Read_loop ?k b 0 (mkState ?s1 (f ?m1) ?p1)] =>
          change (mkState s1 (f m1) p1) with
            (lift_state (with_closedLocal v) f
               (mkState (with_exbuf r (with_extra r (with_dataIn q (stream st)))) m1 p1))
        end.
        rewrite Read_loop_lift. cbn [stream dataIn with_exbuf with_extra with_dataIn].
        match goal with |- context [Read_loop ?k b 0 ?s1] =>
          destruct (Read_loop k b 0 s1) as [[[b1 n1] st1]| | |] end; reflexivity.
    + replace (rDeadline (stream (lift_state (with_closedLocal v) f st)))
        with (rDeadline (stream st)) by reflexivity.
      destruct (deadline_ready _ now); reflexivity.
Qed.

(** An accepted [Close] of a stream open on both sides. *)
Lemma Close_half (R : Z) (st : State) :
  isClosed (stream st) = false -> closedRemote (stream st) = false ->
  next_answer st = None \/ shutdown (mp st) = true ->
  Close R st = Done (next_answer st, closed_locally R st).
Proof.
  intros Hcl Hcr Hok.
  assert (Hesc : bool_decide (next_answer st <> None) && negb (isShutdown (mp st)) = false).
  { unfold isShutdown. destruct Hok as [-> | ->]; [reflexivity|apply andb_false_r]. }
  unfold Close, sendMsg, doCloseLocal. mrun.
  rewrite Hcl, Hcr. fold (next_answer st). simpl. unfold isShutdown in *. rewrite Hesc.
  unfold closed_locally, after_sends, next_answer. simpl.
  destruct (sendScript (mp st)); reflexivity.
Qed.

(** X14. Closing the local side does not disturb reading: on a stream open
    on both sides whose Close frame the send path takes (or whose session is
    shut down already), [Close] followed by [Read] gives the reader the same
    bytes, count and error, and ends in the same state, as [Read] followed
    by [Close]. *)
Theorem Close_Read_commute (R : Z) (c : selectCase) (b : list byte) (st : State) :
  isClosed (stream st) = false -> closedRemote (stream st) = false ->
  next_answer st = None \/ shutdown (mp st) = true ->
  (_ ← Close R; Read c b) st = (r ← Read c b; _ ← Close R; mret r) st.
Proof.
  intros Hcl Hcr Hok. unfold mbind, M_bind, bind, mret, M_ret, ret.
  rewrite Close_half by assumption.
  set (f := fun m : Multiplex => mp (after_sends
                [mkSendCall (DoneTimeout R) (header (sid (stream st)) closeTag) []
                            (next_answer st)] (mkState (stream st) m (pool st)))).
  assert (HT : forall st1, mp st1 = mp st -> flags (stream st1) = flags (stream st) ->
                           closed_locally R st1 = lift_state (with_closedLocal true) f st1).
  { intros st1 Hm Hf. unfold flags in Hf. injection Hf as Hsid _ _ _ _ _ _ _.
    unfold closed_locally, lift_state, f, after_sends, next_answer. simpl.
    rewrite Hm, Hsid. reflexivity. }
  rewrite (HT st) by reflexivity. rewrite Read_lift.
  destruct (Read c b st) as [[r st']| | |] eqn:HR; try reflexivity.
  destruct (Read_frame_facts c b st r st' HR) as [Hm Hf].
  cbn [res_map].
  assert (Hf' := Hf). unfold flags in Hf'. injection Hf' as _ _ _ _ _ Hcr' _ Hcl'.
  rewrite Close_half.
  - rewrite (HT st') by assumption. reflexivity.
  - unfold isClosed in *. congruence.
  - congruence.
  - unfold next_answer in *. rewrite Hm. exact Hok.
Qed.

(** The stream of [exBufferedState]: closing first or reading first gives
    the reader the same two bytes. *)
Lemma Close_Read_commute_witness :
  exists st',
    (_ ← Close 5000; Read SelData [x00; x00]) exBufferedState =
      Done (([x02; x03], 2%nat, None), st') /\
    (r ← Read SelData [x00; x00]; _ ← Close 5000; mret r) exBufferedState =
      Done (([x02; x03], 2%nat, None), st').
Proof.
  assert (Hex : exists st', (_ ← Close 5000; Read SelData [x00; x00]) exBufferedState =
                            Done (([x02; x03], 2%nat, None), st'))
    by (eexists; vm_compute; reflexivity).
  destruct Hex as [st' H]. exists st'. split; [exact H|].
  rewrite <- (Close_Read_commute 5000 SelData [x00; x00] exBufferedState
                eq_refl eq_refl (or_introl eq_refl)).
  exact H.
Defined.

(** ** Preloading *)

(** X15. [preloadData] never blocks. When [extra] and [exbuf] are nil it
    loses nothing: the pending bytes and the held buffers are the same
    before and after, and with an empty queue the state does not change at
    all. When [extra] still has bytes and a slice is queued, those bytes
    are dropped, which is why [Read] preloads only after [extra] is used
    up. *)
Theorem preloadData_keeps_pending (st : State) :
  exists st',
    preloadData st = Done (tt, st') /\
    mp st' = mp st /\ pool st' = pool st /\ flags (stream st') = flags (stream st) /\
    (dataIn (stream st) = [] -> st' = st) /\
    (extra (stream st) = None -> exbuf (stream st) = None ->
       pending (stream st') = pending (stream st) /\
       held (stream st') = held (stream st)) /\
    (forall r q, dataIn (stream st) = r :: q ->
       pending (stream st') = drop (length (slice_bytes (extra (stream st))))
                                   (pending (stream st))).
Proof.
  unfold preloadData, recvDataIn. munfold.
  destruct st as [s m p]. cbn [stream mp pool].
  destruct (dataIn s) as [|r q] eqn:Hq.
  - exists (mkState s m p).
    split; [destruct (dataInClosed s); reflexivity|].
    repeat split; try reflexivity. intros r q [=].
  - eexists. split; [reflexivity|]. cbn [stream mp pool].
    split; [reflexivity|]. split; [reflexivity|]. split; [reflexivity|].
    split; [discriminate|]. split.
    + intros Hex Heb. unfold pending, held. simpl. rewrite Hex, Heb, Hq.
      split; [reflexivity|]. destruct r; reflexivity.
    + intros r' q' [= <- <-]. unfold pending. simpl. rewrite Hq.
      rewrite drop_app_length. reflexivity.
Qed.

(** One slice is queued and nothing is in [extra]: the slice moves to
    [extra] and [exbuf]. *)
Lemma preloadData_keeps_pending_witness :
  let st := mkState (with_dataIn [Some (mkBuf 8 0 [x04])] exStream) exMux [] in
  exists st',
    preloadData st = Done (tt, st') /\
    pending (stream st') = [x04] /\ held (stream st') = [8%nat].
Proof.
  intros st.
  destruct (preloadData_keeps_pending st) as (st' & H & _ & _ & _ & _ & Hk & _).
  destruct (Hk eq_refl eq_refl) as [Hp Hh].
  exists st'. split; [exact H|]. rewrite Hp, Hh. split; reflexivity.
Defined.

(** ** The tag of a new stream *)

(** X16. With tag 0 the decrement of a non-initiator borrows from the
    number: the header of (n, non-initiator) is the header of (n - 1,
    initiator) with tag 7, and for n = 0 it wraps to 2^64 - 1; for the
    initiator it is 8 n. So tag 0 can be decoded only when the initiator
    sends it. *)
Theorem header_tag0_borrow (n : Z) :
  0 <= n < 2 ^ 61 ->
  header (mkStreamID n true) newStreamTag = 8 * n /\
  (1 <= n ->
     header (mkStreamID n false) newStreamTag = header (mkStreamID (n - 1) true) 7 /\
     Z.shiftr (header (mkStreamID n false) newStreamTag) 3 = n - 1) /\
  (n = 0 -> header (mkStreamID n false) newStreamTag = 2 ^ 64 - 1).
Proof.
  intros Hn.
  assert (Hsh : forall k, 0 <= k < 2 ^ 61 -> u64 (Z.shiftl k 3) = 8 * k).
  { intros k Hk. rewrite u64_small; rewrite Z.shiftl_mul_pow2 by lia; [lia|].
    unfold is_u64. lia. }
  unfold header, newStreamTag. cbn [id initiator negb].
  rewrite Hsh by exact Hn. rewrite Z.lor_0_r.
  split; [reflexivity|]. split.
  - intros H1. rewrite Hsh by lia.
    assert (H7 : Z.lor (8 * (n - 1)) 7 = 8 * (n - 1) + 7).
    { rewrite <- (lor_shift3 (n - 1) 7) by lia.
      rewrite Z.shiftl_mul_pow2 by lia. f_equal. lia. }
    rewrite H7. rewrite u64_small by (unfold is_u64; lia).
    split; [lia|].
    replace (8 * n - 1) with (7 + (n - 1) * 8) by lia.
    rewrite Z.shiftr_div_pow2 by lia. change (2 ^ 3) with 8.
    rewrite Z.div_add by lia. rewrite Z.div_small by lia. lia.
  - intros ->. reflexivity.
Qed.

Lemma header_tag0_borrow_witness :
  header (mkStreamID 5 false) newStreamTag = header (mkStreamID 4 true) 7 /\
  header (mkStreamID 0 false) newStreamTag = 2 ^ 64 - 1.
Proof.
  destruct (header_tag0_borrow 5 ltac:(lia)) as (_ & H & _).
  destruct (header_tag0_borrow 0 ltac:(lia)) as (_ & _ & H0).
  split; [apply H; lia|apply H0; reflexivity].
Defined.
